(** * ml_pipeline/preprocess.py: text normalisation, verified

    A shallow embedding of [clean_text] and of the module global
    [STOP_WORDS] it reads, with the Python built-ins it calls
    ([str.lower], [re.escape], [re.sub], [str.split], [str.join],
    [str.strip], [in]) modelled over Python's own data: a [str] is a
    sequence of Unicode code points.  The Unicode Character Database that
    CPython consults for case mapping and white space is not part of the
    repository; it is a parameter of the development ([UnicodeDB]), and
    the facts used about it are collected in [db_ok]. *)

From Stdlib Require Import String Ascii List NArith Bool Lia.
Import ListNotations.
Local Open Scope N_scope.

(** ** Python values *)

Definition codepoint := N.

(** A Python [str]: a finite sequence of code points. *)
Definition str := list codepoint.

(** A literal of the source, written as a Rocq string of ASCII characters. *)
Definition py (s : string) : str := map N_of_ascii (list_ascii_of_string s).
Arguments py s%_string.

Fixpoint str_eqb (a b : str) : bool :=
  match a, b with
  | [], [] => true
  | x :: a', y :: b' => (x =? y) && str_eqb a' b'
  | _, _ => false
  end.

(** [w in l] for a list of strings. *)
Definition contains (l : list str) (w : str) : bool := existsb (str_eqb w) l.

(** [c in s] for a string and one character. *)
Definition has_char (s : str) (c : codepoint) : bool := existsb (N.eqb c) s.

(** ** The Unicode database *)

(** The tables behind [str.lower], [str.split] and [str.strip]:
    CPython's [_PyUnicode_ToLowerFull], [_PyUnicode_IsCased],
    [_PyUnicode_IsCaseIgnorable] and [Py_UNICODE_ISSPACE]; and the table
    behind [str.isupper], [_PyUnicode_IsUppercase], which the module does
    not consult but which says what an upper-case letter is. *)
Record UnicodeDB := {
  ToLowerFull : codepoint -> list codepoint;
  IsCased : codepoint -> bool;
  IsCaseIgnorable : codepoint -> bool;
  IsWhitespace : codepoint -> bool;
  IsUppercase : codepoint -> bool
}.

(** GREEK CAPITAL LETTER SIGMA and its two lower-case forms. *)
Definition SIGMA : codepoint := 0x3A3.
Definition final_sigma : codepoint := 0x3C2.
Definition small_sigma : codepoint := 0x3C3.

(** An upper-case letter that has no lower-case form. *)
Definition DOUBLE_STRUCK_CAPITAL_C : codepoint := 0x2102.

Definition ascii_upper (c : codepoint) : bool := (65 <=? c) && (c <=? 90).
Definition ascii_lower (c : codepoint) : codepoint :=
  if ascii_upper c then c + 32 else c.

(** White space of [str.isspace] below U+0080: TAB, LF, VT, FF, CR, the
    four separators FS, GS, RS, US, and SPACE. *)
Definition ascii_isspace (c : codepoint) : bool :=
  ((9 <=? c) && (c <=? 13)) || ((28 <=? c) && (c <=? 32)).

Definition is_ascii (s : str) : Prop := Forall (fun c => c < 128) s.

(** ** Built-ins of [str] *)

Section Builtins.

Variable db : UnicodeDB.

(** The first character of [s] that is not case-ignorable. *)
Fixpoint first_not_ignorable (s : str) : option codepoint :=
  match s with
  | [] => None
  | c :: rest => if IsCaseIgnorable db c then first_not_ignorable rest else Some c
  end.

(** [handle_capital_sigma]: a capital sigma is in final position when a
    cased letter precedes it and none follows, case-ignorable characters
    being skipped on both sides.  [before] is the text before the sigma,
    nearest character first. *)
Definition handle_capital_sigma (before after : str) : codepoint :=
  let preceded :=
    match first_not_ignorable before with
    | Some c => IsCased db c
    | None => false
    end in
  let final :=
    preceded &&
    match first_not_ignorable after with
    | Some c => negb (IsCased db c)
    | None => true
    end in
  if final then final_sigma else small_sigma.

(** [lower_ucs4] at one position. *)
Definition lower_ucs4 (before : str) (c : codepoint) (after : str) : list codepoint :=
  if c =? SIGMA then [handle_capital_sigma before after] else ToLowerFull db c.

Fixpoint do_lower (before : str) (s : str) : str :=
  match s with
  | [] => []
  | c :: rest => lower_ucs4 before c rest ++ do_lower (c :: before) rest
  end.

(** [s.lower()] *)
Definition lower (s : str) : str := do_lower [] s.

(** [s.split()] with no argument: the maximal runs of characters that are
    not white space, in order.  [tok] is the run being read. *)
Definition flush (tok : str) : list str :=
  match tok with
  | [] => []
  | _ => [tok]
  end.

Fixpoint split_from (tok : str) (s : str) : list str :=
  match s with
  | [] => flush tok
  | c :: rest =>
      if IsWhitespace db c then flush tok ++ split_from [] rest
      else split_from (tok ++ [c]) rest
  end.

Definition split (s : str) : list str := split_from [] s.

Fixpoint lstrip (s : str) : str :=
  match s with
  | [] => []
  | c :: rest => if IsWhitespace db c then lstrip rest else s
  end.

Definition rstrip (s : str) : str := rev (lstrip (rev s)).

(** [s.strip()] *)
Definition strip (s : str) : str := rstrip (lstrip s).

End Builtins.

(** [sep.join(words)] *)
Fixpoint join (sep : str) (words : list str) : str :=
  match words with
  | [] => []
  | [w] => w
  | w :: rest => w ++ sep ++ join sep rest
  end.

(** ** The fragment of [re] that the module uses *)

(** [string.punctuation] *)
Definition punctuation : str :=
  py "!" ++ [34] ++ py "#$%&'()*+,-./:;<=>?@[\]^_`{|}~".

(** The characters [re.escape] puts a backslash before. *)
Definition special_chars : str :=
  py "()[]{}?*+-|^$\.&~# " ++ [9; 10; 13; 11; 12].

Definition backslash : codepoint := 92.

(** [re.escape(s)] *)
Definition re_escape (s : str) : str :=
  flat_map (fun c => if has_char special_chars c then [backslash; c] else [c]) s.

(** The tokens of a pattern: a backslash takes the next character with it. *)
Inductive atom :=
| Esc (c : codepoint)
| Raw (c : codepoint).

Fixpoint atoms (p : str) : option (list atom) :=
  match p with
  | [] => Some []
  | c :: rest =>
      if c =? backslash then
        match rest with
        | [] => None
        | d :: rest' => option_map (cons (Esc d)) (atoms rest')
        end
      else option_map (cons (Raw c)) (atoms rest)
  end.

Inductive set_item :=
| LITERAL (c : codepoint)
| RANGE (lo hi : codepoint).

(** A character set [[...]]: its items, and whether it starts with [^]. *)
Record charset := { negate : bool; items : list set_item }.

Definition is_raw (c : codepoint) (a : atom) : bool :=
  match a with
  | Raw d => d =? c
  | Esc _ => false
  end.

Definition alnum (c : codepoint) : bool :=
  ((48 <=? c) && (c <=? 57)) || ((65 <=? c) && (c <=? 90)) || ((97 <=? c) && (c <=? 122)).

(** The character an atom stands for inside a set.  An escaped letter or
    digit is a class or a control escape; those are outside the fragment. *)
Definition code_of (a : atom) : option codepoint :=
  match a with
  | Raw c => Some c
  | Esc c => if alnum c then None else Some c
  end.

(** The items of a set up to its closing bracket, which must end the
    pattern.  [first] holds at the first item, where a closing bracket is
    a literal. *)
Fixpoint parse_items (first : bool) (l : list atom) : option (list set_item) :=
  match l with
  | [] => None
  | a :: rest =>
      if is_raw 93 a && negb first then
        match rest with
        | [] => Some []
        | _ => None
        end
      else
        match code_of a with
        | None => None
        | Some lo =>
            let single := option_map (cons (LITERAL lo)) (parse_items false rest) in
            match rest with
            | dash :: b :: rest' =>
                if is_raw 45 dash then
                  if is_raw 93 b then
                    match rest' with
                    | [] => Some [LITERAL lo; LITERAL 45]
                    | _ => None
                    end
                  else
                    match code_of b with
                    | None => None
                    | Some hi =>
                        if hi <? lo then None
                        else option_map (cons (RANGE lo hi)) (parse_items false rest')
                    end
                else single
            | _ => single
            end
        end
  end.

(** [re.compile] on a pattern that is one character set; [None] for a
    malformed set ([re.error]) and for any pattern outside the fragment. *)
Definition re_compile (pattern : str) : option charset :=
  match atoms pattern with
  | Some (open :: body) =>
      if is_raw 91 open then
        match body with
        | caret :: body' =>
            if is_raw 94 caret
            then option_map (Build_charset true) (parse_items true body')
            else option_map (Build_charset false) (parse_items true body)
        | [] => None
        end
      else None
  | _ => None
  end.

Definition item_matches (c : codepoint) (i : set_item) : bool :=
  match i with
  | LITERAL d => c =? d
  | RANGE lo hi => (lo <=? c) && (c <=? hi)
  end.

Definition set_matches (cs : charset) (c : codepoint) : bool :=
  xorb (negate cs) (existsb (item_matches c) (items cs)).

(** [re.sub(pattern, repl, s)] for a compiled set: every character the set
    matches is replaced by [repl]. *)
Definition re_sub (cs : charset) (repl : str) (s : str) : str :=
  flat_map (fun c => if set_matches cs c then repl else [c]) s.

(** ** Module state and effects *)

(** The one exception the body could meet: [re.error], from [re.sub]
    compiling its pattern. *)
Inductive exn := re_error.

Inductive result (A : Type) :=
| Ok (a : A)
| Raise (e : exn).
Arguments Ok {A} a.
Arguments Raise {A} e.

(** What a call can observe or change: the list object bound to the
    module global [STOP_WORDS], and standard output. *)
Record world := {
  global_STOP_WORDS : list str;
  stdout : str
}.

Definition M (A : Type) : Type := world -> result A * world.

Definition ret {A} (a : A) : M A := fun w => (Ok a, w).

Definition bind {A B} (m : M A) (k : A -> M B) : M B :=
  fun w =>
    match m w with
    | (Ok a, w') => k a w'
    | (Raise e, w') => (Raise e, w')
    end.

Definition raise {A} (e : exn) : M A := fun w => (Raise e, w).

Notation "x <- m ;; k" := (bind m (fun x => k))
  (at level 61, m at next level, right associativity).
Notation "m ;; k" := (bind m (fun _ => k))
  (at level 61, right associativity).

(** Reading the global [STOP_WORDS]. *)
Definition load_STOP_WORDS : M (list str) :=
  fun w => (Ok (global_STOP_WORDS w), w).

(** [print(line)] *)
Definition print (line : str) : M unit :=
  fun w => (Ok tt, {| global_STOP_WORDS := global_STOP_WORDS w;
                      stdout := stdout w ++ line ++ [10] |}).

Definition compile (pattern : str) : M charset :=
  match re_compile pattern with
  | Some cs => ret cs
  | None => raise re_error
  end.

Fixpoint for_each {A} (l : list A) (body : A -> M unit) : M unit :=
  match l with
  | [] => ret tt
  | x :: rest => body x ;; for_each rest body
  end.

(** ** The module *)

Definition STOP_WORDS : list str :=
  [ py "help"; py "i"; py "think"; py "got"; py "my"; py "me"; py "the";
    py "a"; py "an"; py "please"; py "somebody"; py "do"; py "does";
    py "is"; py "am"; py "are" ].

(** The state of the module once it is imported. *)
Definition module_init : world :=
  {| global_STOP_WORDS := STOP_WORDS; stdout := [] |}.

(** The result of a call made on the freshly imported module. *)
Definition run {A} (m : M A) : result A := fst (m module_init).

Section Module.

Variable db : UnicodeDB.

(** [clean_text(text)], for [text] a [str] or [None]. *)
Definition clean_text (text : option str) : M str :=
  match text with
  | None | Some [] => ret []
  | Some text =>
      (* 1. Lowercase *)
      let text := lower db text in
      (* 2. Remove punctuation using regex *)
      cs <- compile (py "[" ++ re_escape punctuation ++ py "]") ;;
      let text := re_sub cs [] text in
      (* 3. Tokenize and filter stop words *)
      let words := split db text in
      stop_words <- load_STOP_WORDS ;;
      let filtered_words := filter (fun w => negb (contains stop_words w)) words in
      (* 4. Re-join and strip extra whitespace *)
      ret (strip db (join (py " ") filtered_words))
  end.

Definition sample_inputs : list str :=
  [ py "Help! I think i got my ribs fractured.";
    py "Please help, somebody is choking!";
    py "I have a minor cut on my finger." ].

(** The block run when the module is executed as a script. *)
Definition main : M unit :=
  print (py "Testing Preprocessing Logic:") ;;
  print (repeat 45 30) ;;
  for_each sample_inputs (fun sample =>
    print (py "Original: " ++ sample) ;;
    cleaned <- clean_text (Some sample) ;;
    print (py "Cleaned : " ++ cleaned ++ [10])).

End Module.

(** ** What is used of the Unicode database *)

(** Five facts, all of which hold of the database of CPython. *)
Record db_ok (db : UnicodeDB) : Prop := {
  (** below U+0080 only A-Z have a lower case, 32 places up *)
  lower_ascii : forall c, c < 128 -> ToLowerFull db c = [ascii_lower c];
  (** below U+0080 white space is as [ascii_isspace] says *)
  space_ascii : forall c, c < 128 -> IsWhitespace db c = ascii_isspace c;
  (** a lower-case mapping yields characters that are their own lower case *)
  lower_stable : forall c d, c <> SIGMA -> In d (ToLowerFull db c) ->
                 d <> SIGMA /\ ToLowerFull db d = [d];
  sigma_stable : ToLowerFull db final_sigma = [final_sigma] /\
                 ToLowerFull db small_sigma = [small_sigma];
  (** white space has no case *)
  space_uncased : forall c, IsWhitespace db c = true ->
                  c <> SIGMA /\ ToLowerFull db c = [c]
}.

(** ** A table to run the code on *)

Definition in_range (lo hi c : codepoint) : bool := (lo <=? c) && (c <=? hi).

(** An excerpt of the database of CPython 3.11: all of U+0000..U+00FF,
    and beyond it LATIN CAPITAL LETTER I WITH DOT ABOVE, COMBINING DOT
    ABOVE, the three sigmas, DOUBLE-STRUCK CAPITAL C (an upper-case letter
    that has no lower-case form), KELVIN SIGN and the white space.  Every
    other code point is left without case. *)
Definition excerpt_db : UnicodeDB := {|
  ToLowerFull c :=
    if in_range 65 90 c then [c + 32]
    else if in_range 0xC0 0xDE c && negb (c =? 0xD7) then [c + 32]
    else if c =? 0x130 then [0x69; 0x307]
    else if c =? SIGMA then [small_sigma]
    else if c =? 0x212A then [0x6B]
    else [c];
  IsCased c :=
    in_range 65 90 c || in_range 97 122 c
    || has_char [0xAA; 0xB5; 0xBA; 0x130; SIGMA; final_sigma; small_sigma;
                 DOUBLE_STRUCK_CAPITAL_C; 0x212A] c
    || (in_range 0xC0 0xFF c && negb (c =? 0xD7) && negb (c =? 0xF7));
  IsCaseIgnorable c :=
    has_char [0x27; 0x2E; 0x3A; 0x5E; 0x60; 0xA8; 0xAD; 0xAF; 0xB4; 0xB7; 0xB8; 0x307] c;
  IsWhitespace c :=
    in_range 9 13 c || in_range 28 32 c
    || has_char [0x85; 0xA0; 0x1680; 0x2028; 0x2029; 0x202F; 0x205F; 0x3000] c
    || in_range 0x2000 0x200A c;
  IsUppercase c :=
    in_range 65 90 c
    || (in_range 0xC0 0xDE c && negb (c =? 0xD7))
    || has_char [0x130; SIGMA; DOUBLE_STRUCK_CAPITAL_C; 0x212A] c
|}.

(** ** The pipeline as the specification words it *)

Module Spec.

(** The 32 characters of the standard ASCII punctuation set:
    ! to /, : to @, [ to `, and { to ~. *)
Definition is_punctuation (c : codepoint) : bool :=
  in_range 33 47 c || in_range 58 64 c || in_range 91 96 c || in_range 123 126 c.

Definition delete_punctuation (s : str) : str :=
  filter (fun c => negb (is_punctuation c)) s.

(** The pieces of [s] between separators, empty pieces included. *)
Fixpoint fields (sep : codepoint -> bool) (s : str) : list str :=
  match s with
  | [] => [[]]
  | c :: rest =>
      if sep c then [] :: fields sep rest
      else
        match fields sep rest with
        | f :: fs => (c :: f) :: fs
        | [] => [[c]]
        end
  end.

Definition nonempty (s : str) : bool :=
  match s with
  | [] => false
  | _ => true
  end.

(** Split on runs of white space, discarding empty tokens. *)
Definition tokens (db : UnicodeDB) (s : str) : list str :=
  filter nonempty (fields (IsWhitespace db) s).

Definition stop_word_set : list string :=
  [ "help"; "i"; "think"; "got"; "my"; "me"; "the"; "a"; "an"; "please";
    "somebody"; "do"; "does"; "is"; "am"; "are" ]%string.

Definition is_stop_word (w : str) : bool :=
  existsb (fun s => str_eqb (py s) w) stop_word_set.

(** Join with a single space, in order. *)
Definition join_spaces (words : list str) : str :=
  match words with
  | [] => []
  | w :: rest => w ++ flat_map (fun t => 32 :: t) rest
  end.

(** Steps 2 to 6 of the operation. *)
Definition clean (db : UnicodeDB) (text : str) : str :=
  join_spaces
    (filter (fun t => negb (is_stop_word t))
       (tokens db (delete_punctuation (lower db text)))).

End Spec.

(** The tokens of an output, as delimited by single spaces. *)
Definition space_delimited (s : str) : list str := Spec.fields (N.eqb 32) s.

(** No two spaces in a row. *)
Definition single_spaced (s : str) : Prop :=
  forall a b, s <> a ++ [32; 32] ++ b.

(** A character is its own lower case. *)
Definition lower_fixed (db : UnicodeDB) (c : codepoint) : Prop :=
  lower db [c] = [c].

(** ** Auxiliary notions for the proofs *)

(** The set that the pattern of [clean_text] denotes. *)
Definition punctuation_set : charset :=
  {| negate := false; items := map LITERAL punctuation |}.

(** The characters of the lowered text that the substitution keeps. *)
Definition depunct (s : str) : str :=
  filter (fun c => negb (has_char punctuation c)) s.

(** The list [filtered_words] of the body, in a world [w]. *)
Definition filtered_words (db : UnicodeDB) (w : world) (text : str) : list str :=
  filter (fun t => negb (contains (global_STOP_WORDS w) t))
    (split db (depunct (lower db text))).

(** What the body computes on a non-empty string, in a world [w]. *)
Definition body (db : UnicodeDB) (w : world) (text : str) : str :=
  strip db (join (py " ") (filtered_words db w text)).

(** Text made of the given lines, each ended by a line feed. *)
Definition lines (l : list str) : str := flat_map (fun s => s ++ [10]) l.

(** No string occurs twice in the list. *)
Fixpoint distinct (l : list str) : bool :=
  match l with
  | [] => true
  | x :: rest => negb (contains rest x) && distinct rest
  end.

(** What [str.split] returns: a token is not empty and holds no white
    space. *)
Definition token_ok (db : UnicodeDB) (t : str) : Prop :=
  t <> [] /\ Forall (fun c => IsWhitespace db c = false) t.

(** A character that [str.lower] leaves alone wherever it stands. *)
Definition stable (db : UnicodeDB) (c : codepoint) : Prop :=
  c <> SIGMA /\ ToLowerFull db c = [c].

(** Two outputs put side by side: a space between them when neither is
    empty. *)
Definition glue (x y : str) : str :=
  match x, y with
  | [], _ => y
  | _, [] => x
  | _, _ => x ++ py " " ++ y
  end.

(** The words of an output: its space-delimited pieces that are not
    empty. *)
Definition output_words (out : str) : list str :=
  filter Spec.nonempty (space_delimited out).

(** White space neither has case nor is skipped when the case context of
    a sigma is looked up.  This holds of the database of CPython. *)
Definition space_breaks_case (db : UnicodeDB) : Prop :=
  forall c, IsWhitespace db c = true ->
            IsCased db c = false /\ IsCaseIgnorable db c = false.

(** The token that [re.escape] makes of one character. *)
Definition atom_of (c : codepoint) : atom :=
  if has_char special_chars c then Esc c else Raw c.

(** * Proofs *)

(** ** Equality and membership tests *)

Lemma str_eqb_eq (a b : str) : str_eqb a b = true <-> a = b.
Proof.
  revert b; induction a as [|x a IH]; intros [|y b]; simpl; split;
    try congruence; try reflexivity.
  - rewrite andb_true_iff, N.eqb_eq, IH. intros [-> ->]. reflexivity.
  - intros E; injection E as -> ->. rewrite N.eqb_refl. apply IH. reflexivity.
Qed.

Lemma contains_In (l : list str) (w : str) : contains l w = true <-> In w l.
Proof.
  unfold contains. rewrite existsb_exists. split.
  - intros (x & Hx & E). apply str_eqb_eq in E. now subst.
  - intros H. exists w. split; [assumption | now apply str_eqb_eq].
Qed.

Lemma distinct_NoDup (l : list str) : distinct l = true -> NoDup l.
Proof.
  induction l as [|x l IH]; simpl; [constructor|].
  rewrite andb_true_iff, negb_true_iff. intros [H D].
  constructor; [|now apply IH]. rewrite <- contains_In. congruence.
Qed.

Lemma has_char_In (s : str) (c : codepoint) : has_char s c = true <-> In c s.
Proof.
  unfold has_char. rewrite existsb_exists. split.
  - intros (x & Hx & E). apply N.eqb_eq in E. now subst.
  - intros H. exists c. split; [assumption | apply N.eqb_refl].
Qed.

(** A property checked on the 128 code points below U+0080 holds of each. *)
Lemma below_128 (P : codepoint -> bool) :
  forallb P (map N.of_nat (seq 0 128)) = true ->
  forall c, c < 128 -> P c = true.
Proof.
  intros H c Hc. rewrite forallb_forall in H. apply H.
  apply in_map_iff. exists (N.to_nat c). split; [apply N2Nat.id|].
  apply in_seq. lia.
Qed.

Lemma punctuation_ascii : Forall (fun c => c < 128) punctuation.
Proof. apply Forall_forall. intros c H. vm_compute in H. intuition (subst; reflexivity). Qed.

Lemma is_punctuation_iff (c : codepoint) :
  Spec.is_punctuation c = has_char punctuation c.
Proof.
  destruct (N.ltb_spec c 128) as [Hc|Hc].
  - apply eqb_prop.
    apply (below_128 (fun c => eqb (Spec.is_punctuation c) (has_char punctuation c)));
      [vm_compute; reflexivity | assumption].
  - transitivity false.
    + unfold Spec.is_punctuation, in_range.
      repeat match goal with |- context [?a <=? ?b] =>
        destruct (N.leb_spec a b); try lia end; reflexivity.
    + symmetry. apply not_true_is_false. rewrite has_char_In. intros H.
      pose proof punctuation_ascii as A. rewrite Forall_forall in A.
      apply A in H. lia.
Qed.

(** ** The pattern of [clean_text] *)

(** The pattern that the f-string builds. *)
Lemma escaped_punctuation :
  py "[" ++ re_escape punctuation ++ py "]"
  = py "[!" ++ [34] ++ py "\#\$%\&'\(\)\*\+,\-\./:;<=>\?@\[\\\]\^_`\{\|\}\~]".
Proof. vm_compute. reflexivity. Qed.

Lemma pattern_compiles :
  re_compile (py "[" ++ re_escape punctuation ++ py "]") = Some punctuation_set.
Proof. vm_compute. reflexivity. Qed.

Lemma literal_set_matches (l : str) (c : codepoint) :
  set_matches {| negate := false; items := map LITERAL l |} c = has_char l c.
Proof.
  unfold set_matches, has_char; simpl.
  induction l as [|d l IH]; simpl; [reflexivity|]. now rewrite IH.
Qed.

Lemma re_sub_delete (l : str) (s : str) :
  re_sub {| negate := false; items := map LITERAL l |} [] s
  = filter (fun c => negb (has_char l c)) s.
Proof.
  unfold re_sub. induction s as [|c s IH]; simpl; [reflexivity|].
  rewrite literal_set_matches. destruct (has_char l c); simpl; now rewrite IH.
Qed.

Lemma clean_text_unfold (db : UnicodeDB) (text : str) (w : world) :
  text <> [] ->
  clean_text db (Some text) w = (Ok (body db w text), w).
Proof.
  intros H. destruct text as [|c text]; [congruence|].
  unfold clean_text, compile. rewrite pattern_compiles.
  unfold bind, ret, load_STOP_WORDS, body, filtered_words, depunct, punctuation_set.
  rewrite re_sub_delete. reflexivity.
Qed.


(** ** Splitting *)

Section Fields.

Variable sep : codepoint -> bool.

Lemma fields_cons (s : str) : exists f fs, Spec.fields sep s = f :: fs.
Proof.
  destruct s as [|c s]; simpl; [now eexists; eexists|].
  destruct (sep c); [now eexists; eexists|].
  destruct (Spec.fields sep s); now eexists; eexists.
Qed.

Lemma fields_free (w : str) :
  Forall (fun c => sep c = false) w -> Spec.fields sep w = [w].
Proof.
  induction 1 as [|c w Hc _ IH]; simpl; [reflexivity|].
  now rewrite Hc, IH.
Qed.

Lemma fields_app_sep (a b : str) (c : codepoint) :
  sep c = true ->
  Spec.fields sep (a ++ c :: b) = Spec.fields sep a ++ Spec.fields sep b.
Proof.
  intros Hc. induction a as [|x a IH]; simpl.
  - now rewrite Hc.
  - destruct (sep x); rewrite IH; [reflexivity|].
    destruct (fields_cons a) as (f & fs & ->). reflexivity.
Qed.

Lemma fields_chars (s : str) :
  forall f, In f (Spec.fields sep s) ->
  forall c, In c f -> sep c = false /\ In c s.
Proof.
  induction s as [|x s IH]; simpl.
  - intros f [<-|[]] c [].
  - destruct (sep x) eqn:Hx.
    + intros f [<-|Hf] c Hc; [destruct Hc|].
      destruct (IH f Hf c Hc). auto.
    + destruct (Spec.fields sep s) as [|g gs].
      * intros f [<-|[]] c [<-|[]]. auto.
      * intros f [<-|Hf] c Hc.
        -- destruct Hc as [<-|Hc]; [auto|].
           destruct (IH g (or_introl eq_refl) c Hc). auto.
        -- destruct (IH f (or_intror Hf) c Hc). auto.
Qed.

Lemma fields_join (toks : list str) :
  sep 32 = true -> toks <> [] ->
  Forall (Forall (fun c => sep c = false)) toks ->
  Spec.fields sep (join (py " ") toks) = toks.
Proof.
  intros Hsp Hne H. induction H as [|w toks Hw Htoks IH]; [now elim Hne|].
  destruct toks as [|w2 rest].
  - simpl. now apply fields_free.
  - change (join (py " ") (w :: w2 :: rest))
      with (w ++ 32 :: join (py " ") (w2 :: rest)).
    rewrite fields_app_sep by assumption.
    rewrite fields_free by assumption.
    rewrite IH by discriminate. reflexivity.
Qed.

End Fields.

Section Split.

Variable db : UnicodeDB.

Lemma flush_nonempty (tok : str) : flush tok = filter Spec.nonempty [tok].
Proof. destruct tok; reflexivity. Qed.

Lemma split_from_fields (s tok : str) :
  exists f fs, Spec.fields (IsWhitespace db) s = f :: fs /\
               split_from db tok s = filter Spec.nonempty ((tok ++ f) :: fs).
Proof.
  revert tok. induction s as [|c s IH]; intros tok.
  - exists [], []. split; [reflexivity|].
    simpl split_from. rewrite app_nil_r. apply flush_nonempty.
  - simpl. destruct (IsWhitespace db c).
    + eexists; eexists; split; [reflexivity|].
      destruct (IH []) as (f & fs & E & ->). rewrite E, app_nil_r.
      destruct tok; reflexivity.
    + destruct (IH (tok ++ [c])) as (f & fs & E & ->). rewrite E.
      eexists; eexists; split; [reflexivity|].
      now rewrite <- app_assoc.
Qed.

(** [str.split] computes the tokens of the specification. *)
Lemma split_tokens (s : str) : split db s = Spec.tokens db s.
Proof.
  unfold split, Spec.tokens.
  destruct (split_from_fields s []) as (f & fs & -> & ->). reflexivity.
Qed.

Lemma nonempty_true (t : str) : Spec.nonempty t = true <-> t <> [].
Proof. destruct t; simpl; split; congruence. Qed.

(** A token is not empty, holds no white space, and is made of characters
    of the string. *)
Lemma split_token (s t : str) :
  In t (split db s) ->
  t <> [] /\ forall c, In c t -> IsWhitespace db c = false /\ In c s.
Proof.
  rewrite split_tokens. unfold Spec.tokens. rewrite filter_In.
  intros [Hin Hne]. split; [now apply nonempty_true|].
  now apply fields_chars.
Qed.

Lemma split_whitespace (s : str) :
  Forall (fun c => IsWhitespace db c = true) s -> split db s = [].
Proof.
  unfold split. induction 1 as [|c s Hc _ IH]; simpl; [reflexivity|].
  now rewrite Hc.
Qed.

(** Splitting a joined list of tokens gives the tokens back. *)
Lemma split_join (toks : list str) :
  IsWhitespace db 32 = true ->
  Forall (fun t => t <> [] /\ Forall (fun c => IsWhitespace db c = false) t) toks ->
  split db (join (py " ") toks) = toks.
Proof.
  intros Hsp H. rewrite split_tokens. unfold Spec.tokens.
  destruct toks as [|w rest]; [reflexivity|].
  rewrite fields_join; [|assumption|discriminate|].
  - apply forallb_filter_id. apply forallb_forall. intros t Ht.
    rewrite Forall_forall in H. apply nonempty_true. now apply H.
  - eapply Forall_impl; [|exact H]. now intros t [_ Ht].
Qed.

End Split.

Lemma split_from_ext (db1 db2 : UnicodeDB) (s tok : str) :
  Forall (fun c => IsWhitespace db1 c = IsWhitespace db2 c) s ->
  split_from db1 tok s = split_from db2 tok s.
Proof.
  intros H. revert tok. induction H as [|c s Hc _ IH]; intros tok; simpl;
    [reflexivity|].
  rewrite Hc. destruct (IsWhitespace db2 c); now rewrite IH.
Qed.

(** ** Joining and stripping *)

Lemma join_cons (sep : str) (t : str) (ts : list str) :
  join sep (t :: ts) = t ++ match ts with [] => [] | _ => sep ++ join sep ts end.
Proof. destruct ts; simpl; [now rewrite app_nil_r | reflexivity]. Qed.

Lemma join_last (sep : str) (toks : list str) :
  toks <> [] -> exists pre, join sep toks = pre ++ last toks [].
Proof.
  induction toks as [|t ts IH]; intros H; [now elim H|].
  destruct ts as [|t2 ts].
  - exists []. reflexivity.
  - destruct IH as [pre E]; [discriminate|].
    exists (t ++ sep ++ pre).
    change (join sep (t :: t2 :: ts)) with (t ++ sep ++ join sep (t2 :: ts)).
    rewrite E, <- !app_assoc. reflexivity.
Qed.

Section Strip.

Variable db : UnicodeDB.

Lemma lstrip_id (c : codepoint) (s : str) :
  IsWhitespace db c = false -> lstrip db (c :: s) = c :: s.
Proof. intros H. simpl. now rewrite H. Qed.

Lemma rstrip_id (c : codepoint) (s : str) :
  IsWhitespace db c = false -> rstrip db (s ++ [c]) = s ++ [c].
Proof.
  intros H. unfold rstrip. rewrite rev_app_distr. simpl rev at 2.
  simpl app. rewrite lstrip_id by assumption.
  simpl. now rewrite rev_involutive.
Qed.

(** Stripping a joined list of tokens changes nothing. *)
Lemma strip_join (toks : list str) :
  Forall (token_ok db) toks ->
  strip db (join (py " ") toks) = join (py " ") toks.
Proof.
  intros H. destruct toks as [|t ts]; [reflexivity|].
  unfold strip.
  assert (L : lstrip db (join (py " ") (t :: ts)) = join (py " ") (t :: ts)).
  { rewrite join_cons. inversion H as [|? ? [Hne Hws] _]; subst.
    destruct t as [|c t]; [now elim Hne|].
    inversion Hws; subst. now apply lstrip_id. }
  rewrite L.
  destruct (join_last (py " ") (t :: ts)) as [pre E]; [discriminate|].
  rewrite E.
  assert (Hl : token_ok db (last (t :: ts) [])).
  { rewrite Forall_forall in H. apply H.
    destruct (exists_last (l := t :: ts)) as (l' & a & El); [discriminate|].
    rewrite El, last_last. apply in_or_app. right. now left. }
  destruct Hl as [Hne Hws].
  destruct (exists_last Hne) as (l' & d & El). rewrite El in *.
  rewrite app_assoc. apply rstrip_id.
  rewrite Forall_forall in Hws. apply Hws. apply in_or_app. right. now left.
Qed.

End Strip.

(** ** Lower-casing *)

Lemma ascii_upper_spec (c : codepoint) : ascii_upper c = true <-> 65 <= c <= 90.
Proof. unfold ascii_upper. rewrite andb_true_iff, !N.leb_le. reflexivity. Qed.

Section Lower.

Variable db : UnicodeDB.

Lemma do_lower_stable (s before : str) :
  Forall (stable db) s -> do_lower db before s = s.
Proof.
  intros H. revert before. induction H as [|c s [Hc Ec] _ IH]; intros before;
    simpl; [reflexivity|].
  unfold lower_ucs4. apply N.eqb_neq in Hc. rewrite Hc, Ec, IH. reflexivity.
Qed.

Lemma stable_lower_fixed (c : codepoint) : stable db c -> lower_fixed db c.
Proof.
  intros H. unfold lower_fixed, lower. apply do_lower_stable.
  constructor; [assumption | constructor].
Qed.

Hypothesis ok : db_ok db.

Lemma sigma_forms_stable (before after : str) :
  stable db (handle_capital_sigma db before after).
Proof.
  destruct (sigma_stable db ok) as [F S].
  unfold handle_capital_sigma.
  match goal with |- stable _ (if ?b then _ else _) => destruct b end;
    (split; [discriminate | assumption]).
Qed.

(** Whatever the input, its lower case is made of stable characters. *)
Lemma do_lower_chars (s before : str) : Forall (stable db) (do_lower db before s).
Proof.
  revert before. induction s as [|c s IH]; intros before; simpl; [constructor|].
  apply Forall_app. split; [|apply IH].
  unfold lower_ucs4. destruct (N.eqb_spec c SIGMA) as [E|E].
  - constructor; [apply sigma_forms_stable | constructor].
  - apply Forall_forall. intros d Hd. now apply (lower_stable db ok c).
Qed.

Lemma ascii_not_sigma (c : codepoint) : c < 128 -> c <> SIGMA.
Proof. unfold SIGMA. lia. Qed.

(** On ASCII text, lower-casing maps each character on its own. *)
Lemma do_lower_ascii (s before : str) :
  is_ascii s -> do_lower db before s = map ascii_lower s.
Proof.
  intros H. revert before. induction H as [|c s Hc _ IH]; intros before;
    simpl; [reflexivity|].
  unfold lower_ucs4. pose proof (ascii_not_sigma c Hc) as E.
  apply N.eqb_neq in E. rewrite E, (lower_ascii db ok c Hc), IH. reflexivity.
Qed.

Lemma stable_not_upper (c : codepoint) : stable db c -> ascii_upper c = false.
Proof.
  intros [_ E]. destruct (ascii_upper c) eqn:U; [|reflexivity].
  assert (Hc : c < 128) by (apply ascii_upper_spec in U; lia).
  rewrite (lower_ascii db ok c Hc) in E. unfold ascii_lower in E.
  rewrite U in E. injection E. lia.
Qed.

Lemma ascii_stable (c : codepoint) :
  c < 128 -> ascii_upper c = false -> stable db c.
Proof.
  intros Hc U. split; [now apply ascii_not_sigma|].
  rewrite (lower_ascii db ok c Hc). unfold ascii_lower. now rewrite U.
Qed.

Lemma space_stable : stable db 32.
Proof. apply ascii_stable; [lia | reflexivity]. Qed.

Lemma space_is_whitespace : IsWhitespace db 32 = true.
Proof. rewrite (space_ascii db ok) by lia. reflexivity. Qed.

Lemma whitespace_stable (c : codepoint) : IsWhitespace db c = true -> stable db c.
Proof. intros H. exact (space_uncased db ok c H). Qed.

Lemma punctuation_stable (c : codepoint) : has_char punctuation c = true -> stable db c.
Proof.
  intros H. apply has_char_In in H.
  pose proof punctuation_ascii as A. rewrite Forall_forall in A.
  apply ascii_stable; [now apply A|].
  vm_compute in H. intuition (subst; reflexivity).
Qed.

End Lower.

(** ** The shape of the output *)

Lemma in_join (sep : str) (toks : list str) (c : codepoint) :
  In c (join sep toks) -> In c sep \/ exists t, In t toks /\ In c t.
Proof.
  induction toks as [|t ts IH]; [intros []|].
  rewrite join_cons. intros H. apply in_app_or in H. destruct H as [H|H].
  - right. exists t. split; [now left | assumption].
  - destruct ts as [|t2 ts]; [destruct H|].
    apply in_app_or in H. destruct H as [H|H]; [now left|].
    destruct (IH H) as [?|(u & Hu & Hc)]; [now left|].
    right. exists u. split; [now right | assumption].
Qed.

Lemma depunct_chars (s : str) (c : codepoint) :
  In c (depunct s) <-> In c s /\ has_char punctuation c = false.
Proof. unfold depunct. rewrite filter_In, negb_true_iff. reflexivity. Qed.

Section Output.

Variable db : UnicodeDB.
Variable w : world.

Lemma filtered_words_tokens (text : str) :
  Forall (token_ok db) (filtered_words db w text).
Proof.
  apply Forall_forall. intros t Ht. apply filter_In in Ht. destruct Ht as [Ht _].
  apply split_token in Ht. destruct Ht as [Hne Hc]. split; [assumption|].
  apply Forall_forall. intros c Hin. now apply Hc.
Qed.

Lemma filtered_words_not_stop (text t : str) :
  In t (filtered_words db w text) -> ~ In t (global_STOP_WORDS w).
Proof.
  intros Ht. apply filter_In in Ht. destruct Ht as [_ Hs].
  apply negb_true_iff in Hs. rewrite <- contains_In. congruence.
Qed.

Lemma filtered_words_no_punctuation (text t : str) (c : codepoint) :
  In t (filtered_words db w text) -> In c t -> has_char punctuation c = false.
Proof.
  intros Ht Hc. apply filter_In in Ht. destruct Ht as [Ht _].
  apply split_token in Ht. destruct Ht as [_ H]. destruct (H c Hc) as [_ Hd].
  now apply depunct_chars in Hd.
Qed.

Lemma body_join (text : str) :
  body db w text = join (py " ") (filtered_words db w text).
Proof. unfold body. apply strip_join. apply filtered_words_tokens. Qed.

Lemma body_no_punctuation (text : str) (c : codepoint) :
  In c (body db w text) -> has_char punctuation c = false.
Proof.
  rewrite body_join. intros H. apply in_join in H.
  destruct H as [[<-|[]]|(t & Ht & Hc)]; [reflexivity|].
  eapply filtered_words_no_punctuation; eassumption.
Qed.

Hypothesis ok : db_ok db.

Lemma filtered_words_stable (text t : str) (c : codepoint) :
  In t (filtered_words db w text) -> In c t -> stable db c.
Proof.
  intros Ht Hc. apply filter_In in Ht. destruct Ht as [Ht _].
  apply split_token in Ht. destruct Ht as [_ H]. destruct (H c Hc) as [_ Hd].
  apply depunct_chars in Hd. destruct Hd as [Hd _].
  pose proof (do_lower_chars db ok text []) as S. rewrite Forall_forall in S.
  now apply S.
Qed.

Lemma body_chars (text : str) (c : codepoint) :
  In c (body db w text) ->
  stable db c /\ has_char punctuation c = false.
Proof.
  rewrite body_join. intros H. apply in_join in H.
  destruct H as [[<-|[]]|(t & Ht & Hc)].
  - split; [now apply space_stable | reflexivity].
  - split; [eapply filtered_words_stable | eapply filtered_words_no_punctuation];
      eassumption.
Qed.

End Output.

(** ** The excerpt satisfies what is asked of a database *)

(** Turn the boolean tests among the hypotheses into arithmetic. *)
Ltac tests_to_arith :=
  unfold in_range, has_char, SIGMA, final_sigma, small_sigma in *;
  cbn [existsb] in *;
  repeat match goal with
  | H : context [_ = true] |- _ =>
      progress rewrite ?andb_true_iff, ?orb_true_iff, ?negb_true_iff,
        ?andb_false_iff, ?orb_false_iff, ?negb_false_iff,
        ?N.leb_le, ?N.leb_gt, ?N.eqb_eq, ?N.eqb_neq in H
  | H : context [_ = false] |- _ =>
      progress rewrite ?andb_true_iff, ?orb_true_iff, ?negb_true_iff,
        ?andb_false_iff, ?orb_false_iff, ?negb_false_iff,
        ?N.leb_le, ?N.leb_gt, ?N.eqb_eq, ?N.eqb_neq in H
  end.

(** Take the conditionals of the goal one after the other. *)
Ltac first_test :=
  match goal with
  | |- context [if ?b then _ else _] => destruct b eqn:?
  end.

Lemma excerpt_lower_id (d : codepoint) :
  ~ 65 <= d <= 90 -> ~ (0xC0 <= d <= 0xDE /\ d <> 0xD7) ->
  d <> 0x130 -> d <> SIGMA -> d <> 0x212A ->
  ToLowerFull excerpt_db d = [d].
Proof.
  unfold SIGMA. intros H1 H2 H3 H4 H5. cbn [ToLowerFull excerpt_db].
  repeat first_test; tests_to_arith; try reflexivity; exfalso; lia.
Qed.

Lemma excerpt_lower_cases (c : codepoint) :
  ToLowerFull excerpt_db c = [c] \/
  ((65 <= c <= 90 \/ 0xC0 <= c <= 0xDE /\ c <> 0xD7) /\ ToLowerFull excerpt_db c = [c + 32]) \/
  (c = 0x130 /\ ToLowerFull excerpt_db c = [0x69; 0x307]) \/
  c = SIGMA \/
  (c = 0x212A /\ ToLowerFull excerpt_db c = [0x6B]).
Proof.
  cbn [ToLowerFull excerpt_db]. unfold SIGMA.
  repeat first_test; tests_to_arith; auto 8; right; left; split; auto; lia.
Qed.

Lemma excerpt_db_ok : db_ok excerpt_db.
Proof.
  constructor.
  - intros c Hc. apply str_eqb_eq.
    apply (below_128 (fun c => str_eqb (ToLowerFull excerpt_db c) [ascii_lower c]));
      [vm_compute; reflexivity | assumption].
  - intros c Hc. apply eqb_prop.
    apply (below_128 (fun c => eqb (IsWhitespace excerpt_db c) (ascii_isspace c)));
      [vm_compute; reflexivity | assumption].
  - intros c d Hc Hd.
    assert (G : forall d, ~ 65 <= d <= 90 -> ~ (0xC0 <= d <= 0xDE /\ d <> 0xD7) ->
                d <> 0x130 -> d <> SIGMA -> d <> 0x212A ->
                d <> SIGMA /\ ToLowerFull excerpt_db d = [d])
      by (intros; split; [assumption | now apply excerpt_lower_id]).
    destruct (excerpt_lower_cases c) as [E|[[R E]|[[-> E]|[E|[-> E]]]]];
      try contradiction; rewrite E in Hd; cbn [In] in Hd.
    + destruct Hd as [<-|[]]. split; assumption.
    + destruct Hd as [<-|[]]. apply G; unfold SIGMA; lia.
    + destruct Hd as [<-|[<-|[]]]; apply G; unfold SIGMA; lia.
    + destruct Hd as [<-|[]]. apply G; unfold SIGMA; lia.
  - split; vm_compute; reflexivity.
  - intros c Hc. cbn [IsWhitespace excerpt_db] in Hc. tests_to_arith.
    assert (N : c <> SIGMA) by (unfold SIGMA; lia).
    split; [assumption|]. apply excerpt_lower_id; try assumption; lia.
Qed.

(** ** Calls on the imported module *)

Lemma run_clean_text (db : UnicodeDB) (text : str) :
  text <> [] -> run (clean_text db (Some text)) = Ok (body db module_init text).
Proof. intros H. unfold run. now rewrite clean_text_unfold. Qed.

Lemma is_ascii_check (s : str) : forallb (fun c => c <? 128) s = true -> is_ascii s.
Proof.
  intros H. apply Forall_forall. intros c Hc.
  rewrite forallb_forall in H. apply N.ltb_lt. now apply H.
Qed.

Lemma ascii_lower_ascii (c : codepoint) : c < 128 -> ascii_lower c < 128.
Proof.
  intros H. unfold ascii_lower. destruct (ascii_upper c) eqn:U; [|assumption].
  apply ascii_upper_spec in U. lia.
Qed.

(** On ASCII text the result does not depend on the database. *)
Lemma body_ascii (db1 db2 : UnicodeDB) (w : world) (text : str) :
  db_ok db1 -> db_ok db2 -> is_ascii text ->
  body db1 w text = body db2 w text.
Proof.
  intros ok1 ok2 A. rewrite !body_join. unfold filtered_words, lower.
  rewrite !do_lower_ascii by assumption.
  do 2 f_equal. unfold split. apply split_from_ext.
  apply Forall_forall. intros c Hc. apply depunct_chars in Hc.
  destruct Hc as [Hc _]. apply in_map_iff in Hc. destruct Hc as (x & <- & Hx).
  unfold is_ascii in A. rewrite Forall_forall in A.
  pose proof (ascii_lower_ascii x (A x Hx)) as L.
  now rewrite (space_ascii db1 ok1), (space_ascii db2 ok2).
Qed.

(** Evaluate a call on an ASCII literal with the excerpt. *)
Ltac run_ascii ok :=
  rewrite run_clean_text by discriminate;
  rewrite (body_ascii _ excerpt_db _ _ ok excerpt_db_ok)
    by (apply is_ascii_check; vm_compute; reflexivity);
  vm_compute; reflexivity.

(** ** The specification's pipeline *)

Lemma depunct_spec (s : str) : depunct s = Spec.delete_punctuation s.
Proof.
  unfold depunct, Spec.delete_punctuation. apply filter_ext.
  intros c. now rewrite is_punctuation_iff.
Qed.

Lemma str_eqb_sym (a b : str) : str_eqb a b = str_eqb b a.
Proof.
  revert b; induction a as [|x a IH]; intros [|y b]; simpl; try reflexivity.
  now rewrite N.eqb_sym, IH.
Qed.

Lemma contains_STOP_WORDS (t : str) : contains STOP_WORDS t = Spec.is_stop_word t.
Proof.
  unfold contains, Spec.is_stop_word.
  change STOP_WORDS with (map py Spec.stop_word_set).
  induction Spec.stop_word_set as [|s l IH]; [reflexivity|].
  simpl. now rewrite IH, str_eqb_sym.
Qed.

Lemma join_spaces_spec (words : list str) :
  join (py " ") words = Spec.join_spaces words.
Proof.
  destruct words as [|t ts]; [reflexivity|]. revert t.
  induction ts as [|t2 ts IH]; intros t; simpl.
  - now rewrite app_nil_r.
  - specialize (IH t2). simpl in IH. destruct ts; simpl in *;
      [now rewrite app_nil_r | now rewrite IH].
Qed.

(** ** Ends and spacing of a joined list of tokens *)

Lemma join_first_char (db : UnicodeDB) (toks : list str) (c : codepoint) (rest : str) :
  Forall (token_ok db) toks ->
  join (py " ") toks = c :: rest -> IsWhitespace db c = false.
Proof.
  intros Htoks. destruct toks as [|t ts]; [discriminate|].
  rewrite join_cons. inversion Htoks as [|? ? [Hne Hws] _]; subst.
  destruct t as [|d t]; [now elim Hne|].
  intros E. injection E as <- _. now inversion Hws.
Qed.

Lemma join_last_char (db : UnicodeDB) (toks : list str) (c : codepoint) (init : str) :
  Forall (token_ok db) toks ->
  join (py " ") toks = init ++ [c] -> IsWhitespace db c = false.
Proof.
  intros Htoks E. destruct toks as [|t ts]; [now destruct init|].
  destruct (join_last (py " ") (t :: ts)) as [pre P]; [discriminate|].
  assert (Hl : token_ok db (last (t :: ts) [])).
  { rewrite Forall_forall in Htoks. apply Htoks.
    destruct (exists_last (l := t :: ts)) as (l' & a & El); [discriminate|].
    rewrite El, last_last. apply in_or_app. right. now left. }
  destruct Hl as [Hne Hws].
  destruct (exists_last Hne) as (l' & d & El).
  rewrite P, El, app_assoc in E. apply app_inj_tail in E. destruct E as [_ <-].
  rewrite Forall_forall in Hws. apply Hws. rewrite El.
  apply in_or_app. right. now left.
Qed.

Lemma tokens_space_free (db : UnicodeDB) (toks : list str) :
  IsWhitespace db 32 = true -> Forall (token_ok db) toks ->
  Forall (Forall (fun c => (32 =? c) = false)) toks.
Proof.
  intros Hsp Htoks.
  eapply Forall_impl; [|exact Htoks]. intros t [_ Ht].
  eapply Forall_impl; [|exact Ht]. intros c Hc. cbv beta in Hc.
  apply N.eqb_neq. intros <-. congruence.
Qed.

(** Cutting the output at its spaces gives the tokens back. *)
Lemma space_delimited_join (db : UnicodeDB) (toks : list str) :
  IsWhitespace db 32 = true -> Forall (token_ok db) toks ->
  toks <> [] -> space_delimited (join (py " ") toks) = toks.
Proof.
  intros Hsp Htoks Hne. unfold space_delimited.
  apply fields_join; [reflexivity | assumption | now apply (tokens_space_free db)].
Qed.

Lemma join_single_spaced (db : UnicodeDB) (toks : list str) :
  IsWhitespace db 32 = true -> Forall (token_ok db) toks ->
  single_spaced (join (py " ") toks).
Proof.
  intros Hsp Htoks a b E. destruct toks as [|t ts].
  - destruct a; discriminate.
  - assert (F : In [] (space_delimited (join (py " ") (t :: ts)))).
    { rewrite E. unfold space_delimited.
      change (a ++ [32; 32] ++ b) with (a ++ 32 :: (32 :: b)).
      rewrite fields_app_sep by reflexivity.
      apply in_or_app. right. simpl. now left. }
    rewrite (space_delimited_join db) in F by (assumption || discriminate).
    rewrite Forall_forall in Htoks. destruct (Htoks [] F) as [Hne _].
    now elim Hne.
Qed.

(** The result of a call, with or without the guard. *)
Lemma run_clean_text_join (db : UnicodeDB) (text : str) :
  run (clean_text db (Some text))
  = Ok (join (py " ") (filtered_words db module_init text)).
Proof.
  destruct text as [|c text]; [reflexivity|].
  rewrite run_clean_text by discriminate. now rewrite body_join.
Qed.

Lemma filter_twice {A} (p : A -> bool) (l : list A) :
  filter p (filter p l) = filter p l.
Proof.
  apply forallb_filter_id. apply forallb_forall. intros x Hx.
  now apply filter_In in Hx.
Qed.

(** The stop words are their own lower case, and none is empty. *)
Lemma stop_word_lower (db : UnicodeDB) (s : str) :
  db_ok db -> In s STOP_WORDS -> lower db s = s /\ s <> [].
Proof.
  intros ok H.
  assert (C : forallb (fun s => forallb (fun c => c <? 128) s
                               && str_eqb (map ascii_lower s) s
                               && Spec.nonempty s) STOP_WORDS = true)
    by (vm_compute; reflexivity).
  rewrite forallb_forall in C. specialize (C s H).
  apply andb_true_iff in C. destruct C as [C N].
  apply andb_true_iff in C. destruct C as [A L].
  split; [|now apply nonempty_true].
  unfold lower. rewrite do_lower_ascii by (assumption || now apply is_ascii_check).
  now apply str_eqb_eq.
Qed.

(** ** Punctuation between ASCII words *)

Lemma alnum_ascii (c : codepoint) : alnum c = true -> c < 128.
Proof.
  unfold alnum. rewrite !orb_true_iff, !andb_true_iff, !N.leb_le. lia.
Qed.

Lemma alnum_lower_plain (c : codepoint) :
  alnum c = true ->
  has_char punctuation (ascii_lower c) = false /\
  ascii_isspace (ascii_lower c) = false.
Proof.
  intros H. pose proof (alnum_ascii c H) as Hc.
  assert (C : implb (alnum c)
                (negb (has_char punctuation (ascii_lower c))
                 && negb (ascii_isspace (ascii_lower c))) = true).
  { revert c Hc H. intros c Hc _.
    apply (below_128 (fun c => implb (alnum c)
             (negb (has_char punctuation (ascii_lower c))
              && negb (ascii_isspace (ascii_lower c)))));
      [vm_compute; reflexivity | assumption]. }
  rewrite H in C. simpl in C. apply andb_true_iff in C.
  now rewrite !negb_true_iff in C.
Qed.

Lemma depunct_app (a b : str) : depunct (a ++ b) = depunct a ++ depunct b.
Proof. apply filter_app. Qed.

Lemma depunct_lower_punctuation (p : str) :
  Forall (fun c => In c punctuation) p -> depunct (map ascii_lower p) = [].
Proof.
  induction 1 as [|c p Hc _ IH]; [reflexivity|].
  assert (E : ascii_lower c = c).
  { vm_compute in Hc. intuition (subst; reflexivity). }
  cbn [map]. rewrite E. unfold depunct in *. cbn [filter].
  apply has_char_In in Hc. rewrite Hc. exact IH.
Qed.

Lemma punctuation_is_ascii (p : str) :
  Forall (fun c => In c punctuation) p -> is_ascii p.
Proof.
  intros H. eapply Forall_impl; [|exact H]. intros c Hc.
  pose proof punctuation_ascii as A. rewrite Forall_forall in A. now apply A.
Qed.

(** Punctuation inside ASCII text leaves no trace in the text that is
    split. *)
Lemma depunct_lower_skip (db : UnicodeDB) (a p b : str) :
  db_ok db -> is_ascii a -> is_ascii b ->
  Forall (fun c => In c punctuation) p ->
  depunct (lower db (a ++ p ++ b)) = depunct (lower db (a ++ b)).
Proof.
  intros ok A B P. unfold lower.
  pose proof (punctuation_is_ascii p P) as Pa.
  rewrite !do_lower_ascii; try assumption; unfold is_ascii in *;
    repeat (apply Forall_app; split); try assumption.
  rewrite !map_app, !depunct_app, (depunct_lower_punctuation p P).
  reflexivity.
Qed.

(** Text without white space is at most one token. *)
Lemma split_free (db : UnicodeDB) (s : str) :
  Forall (fun c => IsWhitespace db c = false) s ->
  split db s = match s with [] => [] | _ => [s] end.
Proof.
  intros H. rewrite split_tokens. unfold Spec.tokens.
  rewrite fields_free by assumption. now destruct s.
Qed.

(** An ASCII word of letters and digits is one token. *)
Lemma alnum_word_token (db : UnicodeDB) (m : str) :
  db_ok db -> m <> [] -> Forall (fun c => alnum c = true) m ->
  split db (depunct (lower db m)) = [map ascii_lower m].
Proof.
  intros ok Hne H.
  assert (A : is_ascii m).
  { eapply Forall_impl; [|exact H]. intros c. apply alnum_ascii. }
  unfold lower. rewrite do_lower_ascii by assumption.
  assert (D : depunct (map ascii_lower m) = map ascii_lower m).
  { apply forallb_filter_id. apply forallb_forall. intros c Hc.
    apply in_map_iff in Hc. destruct Hc as (x & <- & Hx).
    rewrite Forall_forall in H. destruct (alnum_lower_plain x (H x Hx)) as [-> _].
    reflexivity. }
  rewrite D, split_tokens. unfold Spec.tokens.
  rewrite fields_free.
  - destruct m; [now elim Hne | reflexivity].
  - apply Forall_forall. intros c Hc.
    apply in_map_iff in Hc. destruct Hc as (x & <- & Hx).
    unfold is_ascii in A. rewrite Forall_forall in H, A.
    rewrite (space_ascii db ok) by (apply ascii_lower_ascii; now apply A).
    now destruct (alnum_lower_plain x (H x Hx)).
Qed.

(** ** The script *)

(** Run as a script, the module prints each sample and what it is cleaned
    to, and leaves the stop-word list as it was. *)
Lemma main_prints :
  main excerpt_db module_init
  = (Ok tt,
     {| global_STOP_WORDS := STOP_WORDS;
        stdout := lines
          [ py "Testing Preprocessing Logic:";
            py "------------------------------";
            py "Original: Help! I think i got my ribs fractured.";
            py "Cleaned : ribs fractured"; py "";
            py "Original: Please help, somebody is choking!";
            py "Cleaned : choking"; py "";
            py "Original: I have a minor cut on my finger.";
            py "Cleaned : have minor cut on finger"; py "" ] |}).
Proof. vm_compute. reflexivity. Qed.

(** * The claims *)

(** C1. For every non-empty string [text], [clean_text(text)] is the
    result of the reference pipeline of the specification: lower-case the
    string, delete every ASCII punctuation character, split on runs of white
    space discarding empty tokens, drop the tokens that are stop words, and
    join what remains with single spaces, in order. *)
Theorem clean_text_refines_spec (db : UnicodeDB) (text : str) :
  text <> [] ->
  run (clean_text db (Some text)) = Ok (Spec.clean db text).
Proof.
  intros H. rewrite run_clean_text by assumption. f_equal.
  rewrite body_join. unfold filtered_words, Spec.clean.
  rewrite join_spaces_spec, split_tokens, depunct_spec. f_equal.
  apply filter_ext. intros t.
  change (global_STOP_WORDS module_init) with STOP_WORDS.
  now rewrite contains_STOP_WORDS.
Qed.

Lemma clean_text_refines_spec_witness :
  py "Please help, somebody is choking!" <> [] /\
  run (clean_text excerpt_db (Some (py "Please help, somebody is choking!")))
  = Ok (Spec.clean excerpt_db (py "Please help, somebody is choking!")).
Proof.
  split; [discriminate|].
  apply (clean_text_refines_spec excerpt_db). discriminate.
Defined.

(** C5. On [None] and on the empty string [clean_text] returns the empty
    string at once: whatever the database and the state of the module,
    no exception is raised and nothing is read or changed. *)
Theorem clean_text_empty_input (db : UnicodeDB) (w : world) :
  clean_text db None w = (Ok [], w) /\
  clean_text db (Some []) w = (Ok [], w) /\
  run (clean_text db None) = Ok [] /\
  run (clean_text db (Some (py ""))) = Ok (py "").
Proof. repeat split. Qed.

(** C7. The three examples of the specification. *)
Theorem clean_text_examples (db : UnicodeDB) :
  db_ok db ->
  run (clean_text db (Some (py "Help! I think i got my ribs fractured.")))
  = Ok (py "ribs fractured") /\
  run (clean_text db (Some (py "I have a minor cut on my finger.")))
  = Ok (py "have minor cut on finger") /\
  run (clean_text db (Some (py "   "))) = Ok (py "").
Proof.
  intros ok. repeat split; run_ascii ok.
Qed.

Lemma clean_text_examples_witness :
  run (clean_text excerpt_db (Some (py "Help! I think i got my ribs fractured.")))
  = Ok (py "ribs fractured") /\
  run (clean_text excerpt_db (Some (py "I have a minor cut on my finger.")))
  = Ok (py "have minor cut on finger") /\
  run (clean_text excerpt_db (Some (py "   "))) = Ok (py "").
Proof. exact (clean_text_examples excerpt_db excerpt_db_ok). Defined.

(** C8. [clean_text] is total: for every input, every database and every
    state of the module it returns a string and raises nothing.  Every
    function of the embedding recurses on the structure of its input. *)
Theorem clean_text_total (db : UnicodeDB) (text : option str) (w : world) :
  exists out, clean_text db text w = (Ok out, w).
Proof.
  destruct text as [[|c text]|].
  - exists []. reflexivity.
  - eexists. apply clean_text_unfold. discriminate.
  - exists []. reflexivity.
Qed.

(** C9. [clean_text] is deterministic and pure: a call leaves the module
    state as it found it (the stop-word list is not changed, nothing is
    printed), its result depends on the state only through the stop-word
    list, and two calls in a row on the same input return the same
    string. *)
Theorem clean_text_pure (db : UnicodeDB) (text : option str) :
  (forall w, snd (clean_text db text w) = w) /\
  (forall w1 w2, global_STOP_WORDS w1 = global_STOP_WORDS w2 ->
     fst (clean_text db text w1) = fst (clean_text db text w2)) /\
  (forall w, exists out,
     (a <- clean_text db text ;; b <- clean_text db text ;; ret (a, b)) w
     = (Ok (out, out), w)).
Proof.
  split; [|split].
  - intros w. destruct (clean_text_total db text w) as [out ->]. reflexivity.
  - intros w1 w2 E. destruct text as [[|c text]|]; try reflexivity.
    rewrite !clean_text_unfold by discriminate. simpl.
    unfold body, filtered_words. now rewrite E.
  - intros w. destruct (clean_text_total db text w) as [out E].
    exists out. unfold bind, ret. rewrite E, E. reflexivity.
Qed.

Lemma clean_text_pure_witness :
  let w1 := module_init in
  let w2 := {| global_STOP_WORDS := STOP_WORDS; stdout := py "Original: " |} in
  global_STOP_WORDS w1 = global_STOP_WORDS w2 /\
  fst (clean_text excerpt_db (Some (py "Is it a cut?")) w1)
  = fst (clean_text excerpt_db (Some (py "Is it a cut?")) w2).
Proof.
  split; [reflexivity|].
  apply (proj1 (proj2 (clean_text_pure excerpt_db (Some (py "Is it a cut?"))))).
  reflexivity.
Defined.

(** C10. A string made only of white space and ASCII punctuation is not
    empty, so it passes the guard, and is still cleaned to the empty
    string: after the punctuation is deleted the split has no token. *)
Theorem clean_text_blank (db : UnicodeDB) (text : str) :
  db_ok db ->
  Forall (fun c => IsWhitespace db c = true \/ has_char punctuation c = true) text ->
  run (clean_text db (Some text)) = Ok [] /\
  split db (depunct (lower db text)) = [].
Proof.
  intros ok H.
  assert (L : lower db text = text).
  { apply do_lower_stable. eapply Forall_impl; [|exact H].
    intros c [Hc|Hc]; [now apply whitespace_stable | now apply punctuation_stable]. }
  assert (S : split db (depunct (lower db text)) = []).
  { rewrite L. apply split_whitespace. apply Forall_forall. intros c Hc.
    apply depunct_chars in Hc. destruct Hc as [Hc Hp].
    rewrite Forall_forall in H. destruct (H c Hc); congruence. }
  split; [|assumption].
  destruct text as [|c text]; [reflexivity|].
  rewrite run_clean_text by discriminate. rewrite body_join.
  unfold filtered_words. now rewrite S.
Qed.

Lemma clean_text_blank_witness :
  Forall (fun c => IsWhitespace excerpt_db c = true \/ has_char punctuation c = true)
    (py "!!! ???") /\
  run (clean_text excerpt_db (Some (py "!!! ???"))) = Ok [].
Proof.
  assert (H : Forall (fun c => IsWhitespace excerpt_db c = true \/
                               has_char punctuation c = true) (py "!!! ???")).
  { repeat constructor; solve [left; reflexivity | right; reflexivity]. }
  split; [exact H|].
  exact (proj1 (clean_text_blank excerpt_db (py "!!! ???") excerpt_db_ok H)).
Defined.

(** C4, as amended.  The output holds no ASCII punctuation character, none
    of the letters A-Z and no character that lower-casing would change; it
    has no white space at either end, and never two spaces in a row.  (An
    upper-case letter that has no lower-case form is kept: see
    [uppercase_letter_kept].) *)
Theorem clean_text_output_normal (db : UnicodeDB) (x : option str) :
  db_ok db ->
  exists out,
    run (clean_text db x) = Ok out /\
    Forall (fun c => ~ In c punctuation /\ ascii_upper c = false /\ lower_fixed db c) out /\
    (forall c rest, out = c :: rest -> IsWhitespace db c = false) /\
    (forall c init, out = init ++ [c] -> IsWhitespace db c = false) /\
    single_spaced out.
Proof.
  intros ok.
  assert (E : forall out, out = [] ->
    Forall (fun c => ~ In c punctuation /\ ascii_upper c = false /\ lower_fixed db c) out /\
    (forall c rest, out = c :: rest -> IsWhitespace db c = false) /\
    (forall c init, out = init ++ [c] -> IsWhitespace db c = false) /\
    single_spaced out).
  { intros out ->. repeat split.
    - constructor.
    - discriminate.
    - intros c [|? ?]; discriminate.
    - intros [|? ?] b; discriminate. }
  destruct x as [[|c0 text]|]; [exists []; split; [reflexivity | now apply E] | |
                                exists []; split; [reflexivity | now apply E]].
  exists (body db module_init (c0 :: text)).
  split; [apply run_clean_text; discriminate|].
  pose proof (filtered_words_tokens db module_init (c0 :: text)) as T.
  split; [|rewrite body_join; repeat split].
  - apply Forall_forall. intros c Hc.
    destruct (body_chars db module_init ok _ c Hc) as [S P].
    repeat split.
    + rewrite <- has_char_In. congruence.
    + now apply (stable_not_upper db ok).
    + now apply stable_lower_fixed.
  - intros c rest. now apply join_first_char.
  - intros c init. now apply join_last_char.
  - apply (join_single_spaced db); [now apply space_is_whitespace | assumption].
Qed.

Lemma clean_text_output_normal_witness :
  exists out,
    run (clean_text excerpt_db (Some (py "  Stop -- THE  bleeding, now!  "))) = Ok out /\
    Forall (fun c => ~ In c punctuation /\ ascii_upper c = false /\
                     lower_fixed excerpt_db c) out /\
    (forall c rest, out = c :: rest -> IsWhitespace excerpt_db c = false) /\
    (forall c init, out = init ++ [c] -> IsWhitespace excerpt_db c = false) /\
    single_spaced out.
Proof.
  exact (clean_text_output_normal excerpt_db
           (Some (py "  Stop -- THE  bleeding, now!  ")) excerpt_db_ok).
Defined.

(** C4, as stated, fails: DOUBLE-STRUCK CAPITAL C is an upper-case letter
    ([str.isupper] holds of it) with no lower-case form, so [str.lower]
    keeps it and it reaches the output. *)
Lemma uppercase_letter_kept :
  db_ok excerpt_db /\
  run (clean_text excerpt_db (Some [DOUBLE_STRUCK_CAPITAL_C]))
  = Ok [DOUBLE_STRUCK_CAPITAL_C] /\
  ~ Forall (fun c => IsUppercase excerpt_db c = false) [DOUBLE_STRUCK_CAPITAL_C].
Proof.
  split; [exact excerpt_db_ok|]. split; [vm_compute; reflexivity|].
  intros H. inversion H as [|? ? U _]. vm_compute in U. discriminate.
Qed.

(** C6. Cleaning is idempotent: cleaning the output of a call returns it
    unchanged. *)
Theorem clean_text_idempotent (db : UnicodeDB) (x : option str) :
  db_ok db ->
  exists y, run (clean_text db x) = Ok y /\ run (clean_text db (Some y)) = Ok y.
Proof.
  intros ok.
  destruct x as [[|c0 text]|]; [now exists [] | | now exists []].
  exists (body db module_init (c0 :: text)).
  split; [apply run_clean_text; discriminate|].
  rewrite run_clean_text_join. f_equal.
  set (y := body db module_init (c0 :: text)).
  assert (L : lower db y = y).
  { apply do_lower_stable. apply Forall_forall. intros c Hc.
    now destruct (body_chars db module_init ok _ c Hc). }
  assert (P : depunct y = y).
  { apply forallb_filter_id. apply forallb_forall. intros c Hc.
    destruct (body_chars db module_init ok _ c Hc) as [_ ->]. reflexivity. }
  unfold filtered_words at 1. rewrite L, P.
  unfold y at 1. rewrite body_join, split_join.
  - unfold filtered_words at 1. rewrite filter_twice.
    fold (filtered_words db module_init (c0 :: text)). subst y.
    now rewrite body_join.
  - now apply space_is_whitespace.
  - apply filtered_words_tokens.
Qed.

Lemma clean_text_idempotent_witness :
  exists y,
    run (clean_text excerpt_db (Some (py "Somebody, HELP me: my arm is broken!"))) = Ok y /\
    run (clean_text excerpt_db (Some y)) = Ok y.
Proof.
  exact (clean_text_idempotent excerpt_db
           (Some (py "Somebody, HELP me: my arm is broken!")) excerpt_db_ok).
Defined.

(** C2. The stop-word list holds exactly the sixteen words of the
    specification, all in lower case; and no token of the output, as
    delimited by single spaces, equals one of them, even up to case. *)
Theorem stop_words_never_output (db : UnicodeDB) (x : option str) :
  db_ok db ->
  STOP_WORDS = map py [ "help"; "i"; "think"; "got"; "my"; "me"; "the"; "a";
                        "an"; "please"; "somebody"; "do"; "does"; "is"; "am";
                        "are" ]%string /\
  List.length STOP_WORDS = 16%nat /\
  NoDup STOP_WORDS /\
  (forall s, In s STOP_WORDS -> lower db s = s) /\
  exists out,
    run (clean_text db x) = Ok out /\
    forall t s, In t (space_delimited out) -> In s STOP_WORDS ->
                t <> s /\ lower db t <> lower db s.
Proof.
  intros ok.
  split; [reflexivity|]. split; [reflexivity|].
  split.
  { apply distinct_NoDup. vm_compute. reflexivity. }
  split; [intros s Hs; now apply (stop_word_lower db s ok)|].
  assert (E : forall t s, In t (space_delimited []) -> In s STOP_WORDS ->
                          t <> s /\ lower db t <> lower db s).
  { intros t s [<-|[]] Hs. destruct (stop_word_lower db s ok Hs) as [L N].
    rewrite L. split; intros F; apply N; now rewrite <- F. }
  destruct x as [[|c0 text]|]; [now exists [] | | now exists []].
  exists (body db module_init (c0 :: text)).
  split; [apply run_clean_text; discriminate|].
  rewrite body_join.
  pose proof (filtered_words_tokens db module_init (c0 :: text)) as T.
  destruct (filtered_words db module_init (c0 :: text)) as [|t0 ts] eqn:W;
    [exact E|].
  rewrite (space_delimited_join db) by
    (assumption || discriminate || now apply space_is_whitespace).
  rewrite <- W. intros t s Ht Hs.
  assert (N : t <> s).
  { intros ->. now apply (filtered_words_not_stop db module_init (c0 :: text) s). }
  split; [assumption|].
  destruct (stop_word_lower db s ok Hs) as [-> _].
  assert (L : lower db t = t).
  { apply do_lower_stable. apply Forall_forall. intros c Hc.
    now apply (filtered_words_stable db module_init ok (c0 :: text) t). }
  now rewrite L.
Qed.

Lemma stop_words_never_output_witness :
  exists out,
    run (clean_text excerpt_db (Some (py "PLEASE Help ME, I am hurt"))) = Ok out /\
    forall t s, In t (space_delimited out) -> In s STOP_WORDS ->
                t <> s /\ lower excerpt_db t <> lower excerpt_db s.
Proof.
  exact (proj2 (proj2 (proj2 (proj2
    (stop_words_never_output excerpt_db (Some (py "PLEASE Help ME, I am hurt"))
       excerpt_db_ok))))).
Defined.

(** C3. The punctuation set is the 32 ASCII punctuation characters, and
    [clean_text] deletes them: none is left in any output, and punctuation
    inside ASCII text is as if it had not been written.  It is not turned
    into a space: text without white space comes out as one token, its
    lower case less the punctuation, and so two runs of letters and digits
    with only punctuation between them are joined into one token.  So
    ["Don't stop."] is cleaned to ["dont stop"]. *)
Theorem punctuation_deleted (db : UnicodeDB) :
  db_ok db ->
  (List.length punctuation = 32%nat /\ NoDup punctuation /\
   forall c, In c punctuation <-> Spec.is_punctuation c = true) /\
  (forall x, exists out,
     run (clean_text db x) = Ok out /\
     forall c, In c punctuation -> ~ In c out) /\
  (forall a p b,
     is_ascii a -> is_ascii b -> Forall (fun c => In c punctuation) p ->
     run (clean_text db (Some (a ++ p ++ b))) = run (clean_text db (Some (a ++ b)))) /\
  (forall text,
     Forall (fun c => IsWhitespace db c = false) (lower db text) ->
     ~ In (depunct (lower db text)) STOP_WORDS ->
     run (clean_text db (Some text)) = Ok (depunct (lower db text))) /\
  (forall u p v,
     Forall (fun c => alnum c = true) u -> Forall (fun c => alnum c = true) v ->
     Forall (fun c => In c punctuation) p ->
     ~ In (map ascii_lower (u ++ v)) STOP_WORDS ->
     run (clean_text db (Some (u ++ p ++ v))) = Ok (map ascii_lower (u ++ v)) /\
     ~ In 32 (map ascii_lower (u ++ v))) /\
  run (clean_text db (Some (py "Don't stop."))) = Ok (py "dont stop").
Proof.
  intros ok.
  assert (ONE : forall text,
     Forall (fun c => IsWhitespace db c = false) (lower db text) ->
     ~ In (depunct (lower db text)) STOP_WORDS ->
     run (clean_text db (Some text)) = Ok (depunct (lower db text))).
  { intros text W NS. rewrite run_clean_text_join. f_equal. unfold filtered_words.
    rewrite split_free.
    - destruct (depunct (lower db text)) as [|c m] eqn:E; [reflexivity|].
      cbn [filter global_STOP_WORDS module_init].
      destruct (contains STOP_WORDS (c :: m)) eqn:C;
        [apply contains_In in C; contradiction | reflexivity].
    - apply Forall_forall. intros c Hc. apply depunct_chars in Hc.
      rewrite Forall_forall in W. now apply W. }
  assert (SKIP : forall a p b,
     is_ascii a -> is_ascii b -> Forall (fun c => In c punctuation) p ->
     run (clean_text db (Some (a ++ p ++ b))) = run (clean_text db (Some (a ++ b)))).
  { intros a p b A B P. rewrite !run_clean_text_join. unfold filtered_words.
    now rewrite (depunct_lower_skip db a p b ok A B P). }
  split; [|split; [|split; [exact SKIP|split; [exact ONE|split]]]].
  - split; [reflexivity|]. split.
    + apply (NoDup_map_inv N.to_nat). vm_compute.
      repeat (constructor; [cbn [In]; intuition discriminate|]). constructor.
    + intros c. now rewrite is_punctuation_iff, has_char_In.
  - intros [[|c0 text]|]; [exists []; split; [reflexivity | now intros c _ []] | |
                           exists []; split; [reflexivity | now intros c _ []]].
    exists (body db module_init (c0 :: text)).
    split; [apply run_clean_text; discriminate|].
    intros c Hp Hc. apply body_no_punctuation in Hc.
    apply has_char_In in Hp. congruence.
  - intros u p v U V P NS.
    assert (UV : Forall (fun c => alnum c = true) (u ++ v))
      by (apply Forall_app; now split).
    split.
    + rewrite SKIP; try assumption;
        try (eapply Forall_impl; [|eassumption]; intros c; apply alnum_ascii).
      rewrite run_clean_text_join. f_equal. unfold filtered_words.
      destruct (u ++ v) as [|c m] eqn:E; [reflexivity|].
      rewrite alnum_word_token by (assumption || discriminate).
      cbn [filter global_STOP_WORDS module_init].
      destruct (contains STOP_WORDS (map ascii_lower (c :: m))) eqn:C;
        [apply contains_In in C; contradiction | reflexivity].
    + intros H. apply in_map_iff in H. destruct H as (x & E & Hx).
      rewrite Forall_forall in UV.
      destruct (alnum_lower_plain x (UV x Hx)) as [_ S].
      rewrite E in S. discriminate.
  - run_ascii ok.
Qed.

Lemma punctuation_deleted_witness :
  run (clean_text excerpt_db (Some (py "Good-Bye"))) = Ok (py "goodbye") /\
  run (clean_text excerpt_db (Some (py "Don't stop."))) = Ok (py "dont stop").
Proof.
  pose proof (punctuation_deleted excerpt_db excerpt_db_ok) as (_ & _ & _ & _ & W & D).
  split; [|exact D].
  refine (proj1 (W (py "Good") (py "-") (py "Bye") _ _ _ _)).
  - repeat constructor.
  - repeat constructor.
  - constructor; [apply has_char_In; reflexivity | constructor].
  - vm_compute. intuition discriminate.
Defined.

(** * Further properties of the module *)

(** ** The result in any state of the module *)

Lemma clean_text_join (db : UnicodeDB) (text : str) (w : world) :
  clean_text db (Some text) w = (Ok (join (py " ") (filtered_words db w text)), w).
Proof.
  destruct text as [|c text]; [reflexivity|].
  rewrite clean_text_unfold by discriminate. now rewrite body_join.
Qed.

Lemma filter_nil_iff {A} (p : A -> bool) (l : list A) :
  filter p l = [] <-> Forall (fun x => p x = false) l.
Proof.
  induction l as [|x l IH]; simpl; [split; [constructor | reflexivity]|].
  destruct (p x) eqn:E.
  - split; [discriminate|]. intros H. inversion H; congruence.
  - rewrite IH. split; [now constructor | now inversion 1].
Qed.

Lemma join_nil_iff (db : UnicodeDB) (toks : list str) :
  Forall (token_ok db) toks -> (join (py " ") toks = [] <-> toks = []).
Proof.
  intros H. split; [|now intros ->].
  destruct toks as [|t ts]; [reflexivity|].
  rewrite join_cons. inversion H as [|? ? [Hne _] _]; subst.
  destruct t; [now elim Hne | discriminate].
Qed.

(** X1. The closing [strip()] never changes anything: whatever the
    database, the stop-word list and the text, the call returns the join of
    the words that are kept, and leaves the state as it was. *)
Theorem strip_is_redundant (db : UnicodeDB) (text : str) (w : world) :
  clean_text db (Some text) w
  = (Ok (join (py " ")
           (filter (fun t => negb (contains (global_STOP_WORDS w) t))
              (split db (filter (fun c => negb (has_char punctuation c))
                           (lower db text))))), w).
Proof.
  destruct text as [|c text]; [reflexivity|].
  rewrite clean_text_unfold by discriminate. unfold body.
  rewrite strip_join by apply filtered_words_tokens.
  reflexivity.
Qed.

(** X2. The stop-word list is used as a set: two lists with the same
    members, in whatever order and with whatever repeats, give the same
    result. *)
Theorem stop_list_as_set (db : UnicodeDB) (text : option str) (w1 w2 : world) :
  (forall s, In s (global_STOP_WORDS w1) <-> In s (global_STOP_WORDS w2)) ->
  fst (clean_text db text w1) = fst (clean_text db text w2).
Proof.
  intros H. destruct text as [text|]; [|reflexivity].
  rewrite !clean_text_join. simpl. do 2 f_equal. unfold filtered_words.
  apply filter_ext. intros t. f_equal.
  apply eq_true_iff_eq. rewrite !contains_In. apply H.
Qed.

Lemma stop_list_as_set_witness :
  let w2 := {| global_STOP_WORDS := py "help" :: rev STOP_WORDS; stdout := [] |} in
  fst (clean_text excerpt_db (Some (py "Please help me up")) module_init)
  = fst (clean_text excerpt_db (Some (py "Please help me up")) w2).
Proof.
  apply stop_list_as_set. intros s.
  change (In s STOP_WORDS <-> In s (py "help" :: rev STOP_WORDS)).
  split.
  - intros H. right. now apply in_rev in H.
  - intros [<-|H]; [now left | now apply in_rev].
Defined.

(** X3. The result is empty exactly when every word of the text, once in
    lower case and rid of its punctuation, is in the stop-word list (which
    includes a text that has no word at all). *)
Theorem empty_result_iff (db : UnicodeDB) (text : str) (w : world) :
  fst (clean_text db (Some text) w) = Ok [] <->
  Forall (fun t => In t (global_STOP_WORDS w))
    (split db (filter (fun c => negb (has_char punctuation c)) (lower db text))).
Proof.
  rewrite clean_text_join. cbn [fst].
  pose proof (filtered_words_tokens db w text) as T.
  change (filter (fun c => negb (has_char punctuation c)) (lower db text))
    with (depunct (lower db text)).
  assert (J : Ok (join (py " ") (filtered_words db w text)) = Ok []
              <-> filtered_words db w text = []).
  { rewrite <- (join_nil_iff db) by assumption.
    split; [now intros E; injection E | now intros ->]. }
  rewrite J. unfold filtered_words. rewrite filter_nil_iff.
  split; intros H; (eapply Forall_impl; [|exact H]); intros t; cbv beta;
    rewrite negb_false_iff, contains_In; trivial.
Qed.

(** X4. The call makes up no character: each character of the result is
    either one of the joining spaces or a character of the lower-cased
    text that is neither punctuation nor white space. *)
Theorem output_alphabet (db : UnicodeDB) (text : str) (w : world) :
  exists out,
    clean_text db (Some text) w = (Ok out, w) /\
    forall c, In c out ->
      c = 32 \/
      (In c (lower db text) /\ ~ In c punctuation /\ IsWhitespace db c = false).
Proof.
  eexists. split; [apply clean_text_join|].
  intros c Hc. apply in_join in Hc.
  destruct Hc as [[<-|[]]|(t & Ht & Hc)]; [now left|]. right.
  apply filter_In in Ht. destruct Ht as [Ht _].
  apply split_token in Ht. destruct Ht as [_ H]. destruct (H c Hc) as [W D].
  apply depunct_chars in D. destruct D as [D P].
  repeat split; try assumption.
  rewrite <- has_char_In. congruence.
Qed.

(** ** Changing the stop-word list *)

Lemma output_words_join (db : UnicodeDB) (toks : list str) :
  IsWhitespace db 32 = true -> Forall (token_ok db) toks ->
  output_words (join (py " ") toks) = toks.
Proof.
  intros Hsp H. unfold output_words. destruct toks as [|t ts]; [reflexivity|].
  rewrite (space_delimited_join db) by (assumption || discriminate).
  apply forallb_filter_id. apply forallb_forall. intros u Hu.
  rewrite Forall_forall in H. apply nonempty_true. now apply H.
Qed.

Lemma filter_andb {A} (p q : A -> bool) (l : list A) :
  filter (fun x => p x && q x) l = filter q (filter p l).
Proof.
  induction l as [|x l IH]; [reflexivity|]. simpl.
  destruct (p x); simpl; [destruct (q x)|]; now rewrite IH.
Qed.

Lemma contains_app (l : list str) (s t : str) :
  contains (l ++ [s]) t = contains l t || str_eqb s t.
Proof.
  unfold contains. rewrite existsb_app. simpl.
  now rewrite orb_false_r, str_eqb_sym.
Qed.

(** The state after [STOP_WORDS.append(s)]. *)
Lemma filtered_words_append (db : UnicodeDB) (w : world) (s text : str) :
  filtered_words db
    {| global_STOP_WORDS := global_STOP_WORDS w ++ [s]; stdout := stdout w |} text
  = filter (fun t => negb (str_eqb s t)) (filtered_words db w text).
Proof.
  unfold filtered_words. cbn [global_STOP_WORDS].
  rewrite <- filter_andb. apply filter_ext. intros t.
  now rewrite contains_app, negb_orb.
Qed.

(** A word of the text, lower-cased and rid of punctuation: it is not
    empty and holds no white space, no punctuation and no character that
    lower-casing would change. *)
Lemma word_shape (db : UnicodeDB) (text t : str) :
  db_ok db -> In t (split db (depunct (lower db text))) ->
  t <> [] /\
  forall c, In c t ->
    IsWhitespace db c = false /\ ~ In c punctuation /\ ascii_upper c = false.
Proof.
  intros ok Ht. apply split_token in Ht. destruct Ht as [Hne H].
  split; [assumption|]. intros c Hc. destruct (H c Hc) as [W D].
  apply depunct_chars in D. destruct D as [D P].
  repeat split; try assumption.
  - rewrite <- has_char_In. congruence.
  - apply (stable_not_upper db ok).
    pose proof (do_lower_chars db ok text []) as S. rewrite Forall_forall in S.
    now apply S.
Qed.

(** X5. The list is read at each call: once a word is appended to
    [STOP_WORDS], the next call returns the same words as before less the
    occurrences of that word. *)
Theorem appended_stop_word_is_dropped (db : UnicodeDB) (text s : str) (w : world) :
  db_ok db ->
  exists out out',
    fst (clean_text db (Some text) w) = Ok out /\
    fst (clean_text db (Some text)
           {| global_STOP_WORDS := global_STOP_WORDS w ++ [s];
              stdout := stdout w |}) = Ok out' /\
    output_words out' = filter (fun t => negb (str_eqb s t)) (output_words out).
Proof.
  intros ok. do 2 eexists. rewrite !clean_text_join. cbn [fst].
  split; [reflexivity|]. split; [reflexivity|].
  pose proof (space_is_whitespace db ok) as Hsp.
  rewrite !(output_words_join db) by
    (assumption || apply filtered_words_tokens).
  apply filtered_words_append.
Qed.

Lemma appended_stop_word_is_dropped_witness :
  exists out out',
    fst (clean_text excerpt_db (Some (py "Call now, call an ambulance")) module_init)
    = Ok out /\
    fst (clean_text excerpt_db (Some (py "Call now, call an ambulance"))
           {| global_STOP_WORDS := STOP_WORDS ++ [py "call"]; stdout := [] |})
    = Ok out' /\
    output_words out' = filter (fun t => negb (str_eqb (py "call") t)) (output_words out).
Proof.
  exact (appended_stop_word_is_dropped excerpt_db
           (py "Call now, call an ambulance") (py "call") module_init excerpt_db_ok).
Defined.

(** X6. A stop word that is empty, or holds white space, a punctuation
    character or a letter A-Z, never matches: appending it to [STOP_WORDS]
    changes no result. *)
Theorem malformed_stop_word_is_inert (db : UnicodeDB) (text : option str)
    (s : str) (w : world) :
  db_ok db ->
  s = [] \/
  (exists c, In c s /\
     (IsWhitespace db c = true \/ In c punctuation \/ ascii_upper c = true)) ->
  fst (clean_text db text
         {| global_STOP_WORDS := global_STOP_WORDS w ++ [s]; stdout := stdout w |})
  = fst (clean_text db text w).
Proof.
  intros ok Hs. destruct text as [text|]; [|reflexivity].
  rewrite !clean_text_join. cbn [fst]. do 2 f_equal.
  rewrite filtered_words_append. unfold filtered_words.
  apply forallb_filter_id. apply forallb_forall. intros t Ht.
  apply filter_In in Ht. destruct Ht as [Ht _].
  destruct (word_shape db text t ok Ht) as [Hne H].
  apply negb_true_iff. apply not_true_is_false. intros E.
  apply str_eqb_eq in E. subst t.
  destruct Hs as [->|(c & Hc & B)]; [now elim Hne|].
  destruct (H c Hc) as (W & P & U).
  destruct B as [B|[B|B]]; [congruence | contradiction | congruence].
Qed.

Lemma malformed_stop_word_is_inert_witness :
  fst (clean_text excerpt_db (Some (py "I can't feel my legs"))
         {| global_STOP_WORDS := STOP_WORDS ++ [py "can't"]; stdout := [] |})
  = fst (clean_text excerpt_db (Some (py "I can't feel my legs")) module_init).
Proof.
  apply (malformed_stop_word_is_inert excerpt_db (Some (py "I can't feel my legs"))
           (py "can't") module_init excerpt_db_ok).
  right. exists 39. split; [vm_compute; tauto|].
  right. left. apply has_char_In. reflexivity.
Defined.

(** X7. Cleaning is idempotent whatever the stop-word list holds: in any
    state of the module, cleaning a result returns it unchanged. *)
Theorem idempotent_in_any_state (db : UnicodeDB) (x : option str) (w : world) :
  db_ok db ->
  exists y,
    clean_text db x w = (Ok y, w) /\ clean_text db (Some y) w = (Ok y, w).
Proof.
  intros ok.
  destruct x as [text|]; [|now exists []].
  exists (join (py " ") (filtered_words db w text)).
  split; [apply clean_text_join|].
  rewrite clean_text_join. do 2 f_equal.
  set (toks := filtered_words db w text).
  assert (C : forall c, In c (join (py " ") toks) ->
                        stable db c /\ has_char punctuation c = false).
  { intros c Hc. apply in_join in Hc.
    destruct Hc as [[<-|[]]|(t & Ht & Hc)].
    - split; [now apply space_stable | reflexivity].
    - split; [eapply filtered_words_stable | eapply filtered_words_no_punctuation];
        eassumption. }
  unfold filtered_words at 1.
  assert (L : lower db (join (py " ") toks) = join (py " ") toks).
  { apply do_lower_stable. apply Forall_forall. intros c Hc. now apply C. }
  assert (P : depunct (join (py " ") toks) = join (py " ") toks).
  { apply forallb_filter_id. apply forallb_forall. intros c Hc.
    destruct (C c Hc) as [_ ->]. reflexivity. }
  rewrite L, P, split_join.
  - unfold toks, filtered_words. now rewrite filter_twice.
  - now apply space_is_whitespace.
  - apply filtered_words_tokens.
Qed.

Lemma idempotent_in_any_state_witness :
  let w := {| global_STOP_WORDS := [py "now"; py "Not a word"]; stdout := py "log" |} in
  exists y,
    clean_text excerpt_db (Some (py "Help me NOW, please!")) w = (Ok y, w) /\
    clean_text excerpt_db (Some y) w = (Ok y, w).
Proof.
  exact (idempotent_in_any_state excerpt_db (Some (py "Help me NOW, please!"))
           {| global_STOP_WORDS := [py "now"; py "Not a word"]; stdout := py "log" |}
           excerpt_db_ok).
Defined.

(** ** White space between parts of a text *)

Section Breaks.

Variable db : UnicodeDB.

Lemma first_not_ignorable_app (a rest : str) (c : codepoint) :
  IsCaseIgnorable db c = false ->
  first_not_ignorable db (a ++ c :: rest)
  = match first_not_ignorable db a with
    | Some d => Some d
    | None => Some c
    end.
Proof.
  intros H. induction a as [|x a IH]; simpl; [now rewrite H|].
  destruct (IsCaseIgnorable db x); [exact IH | reflexivity].
Qed.

Lemma sigma_before_break (before a rest : str) (c : codepoint) :
  IsCased db c = false -> IsCaseIgnorable db c = false ->
  handle_capital_sigma db before (a ++ c :: rest) = handle_capital_sigma db before a.
Proof.
  intros C I. unfold handle_capital_sigma.
  rewrite first_not_ignorable_app by assumption.
  destruct (first_not_ignorable db a); [reflexivity | now rewrite C].
Qed.

Lemma sigma_after_break (p far after : str) (c : codepoint) :
  IsCased db c = false -> IsCaseIgnorable db c = false ->
  handle_capital_sigma db (p ++ c :: far) after = handle_capital_sigma db p after.
Proof.
  intros C I. unfold handle_capital_sigma.
  rewrite first_not_ignorable_app by assumption.
  destruct (first_not_ignorable db p); [reflexivity | now rewrite C].
Qed.

Lemma do_lower_after_break (b p far : str) (c : codepoint) :
  IsCased db c = false -> IsCaseIgnorable db c = false ->
  do_lower db (p ++ c :: far) b = do_lower db p b.
Proof.
  intros C I. revert p. induction b as [|x b IH]; intros p; [reflexivity|].
  cbn [do_lower]. rewrite app_comm_cons, (IH (x :: p)). f_equal.
  unfold lower_ucs4. destruct (x =? SIGMA); [|reflexivity].
  now rewrite sigma_after_break.
Qed.

(** A character without case, that is not skipped and that lower-casing
    keeps, cuts the text in two parts that are lower-cased apart. *)
Lemma lower_app_break (a b : str) (c : codepoint) :
  IsCased db c = false -> IsCaseIgnorable db c = false -> stable db c ->
  lower db (a ++ c :: b) = lower db a ++ c :: lower db b.
Proof.
  intros C I [N E]. unfold lower. generalize (@nil codepoint) at 1 2.
  induction a as [|x a IH]; intros before.
  - simpl. unfold lower_ucs4. apply N.eqb_neq in N. rewrite N, E. simpl.
    f_equal. now apply (do_lower_after_break b [] before c).
  - simpl. rewrite IH, <- app_assoc. f_equal.
    unfold lower_ucs4. destruct (x =? SIGMA); [|reflexivity].
    now rewrite sigma_before_break.
Qed.

Hypothesis ok : db_ok db.
Hypothesis brk : space_breaks_case db.

Lemma lower_app_whitespace (ws b : str) :
  ws <> [] -> Forall (fun c => IsWhitespace db c = true) ws ->
  forall a, lower db (a ++ ws ++ b) = lower db a ++ ws ++ lower db b.
Proof.
  intros Hne H. induction H as [|c ws Hc Hws IH]; [now elim Hne|]. intros a.
  destruct (brk c Hc) as [C I].
  pose proof (whitespace_stable db ok c Hc) as S.
  change (a ++ (c :: ws) ++ b) with (a ++ c :: (ws ++ b)).
  rewrite lower_app_break by assumption.
  destruct ws as [|c2 ws]; [reflexivity|].
  change ((c2 :: ws) ++ b) with ([] ++ (c2 :: ws) ++ b).
  rewrite IH by discriminate. reflexivity.
Qed.

Lemma whitespace_not_punctuation (c : codepoint) :
  IsWhitespace db c = true -> has_char punctuation c = false.
Proof.
  intros W. apply not_true_is_false. intros P.
  assert (A : c < 128).
  { pose proof punctuation_ascii as A. rewrite Forall_forall in A.
    apply A. now apply has_char_In. }
  rewrite (space_ascii db ok c A) in W.
  assert (K : negb (has_char punctuation c && ascii_isspace c) = true).
  { apply (below_128 (fun c => negb (has_char punctuation c && ascii_isspace c)));
      [vm_compute; reflexivity | assumption]. }
  rewrite P, W in K. discriminate.
Qed.

Lemma depunct_whitespace (ws : str) :
  Forall (fun c => IsWhitespace db c = true) ws -> depunct ws = ws.
Proof.
  intros H. apply forallb_filter_id. apply forallb_forall. intros c Hc.
  rewrite Forall_forall in H. now rewrite whitespace_not_punctuation by auto.
Qed.

Lemma split_leading_whitespace (ws y : str) :
  Forall (fun c => IsWhitespace db c = true) ws ->
  split db (ws ++ y) = split db y.
Proof.
  unfold split. induction 1 as [|c ws Hc _ IH]; [reflexivity|].
  simpl. now rewrite Hc.
Qed.

Lemma split_app_whitespace (x ws y : str) :
  ws <> [] -> Forall (fun c => IsWhitespace db c = true) ws ->
  split db (x ++ ws ++ y) = split db x ++ split db y.
Proof.
  intros Hne H. destruct H as [|c ws Hc Hws]; [now elim Hne|].
  change (x ++ (c :: ws) ++ y) with (x ++ c :: (ws ++ y)).
  rewrite !split_tokens. unfold Spec.tokens.
  rewrite fields_app_sep by assumption. rewrite filter_app.
  f_equal. fold (Spec.tokens db (ws ++ y)). fold (Spec.tokens db y).
  rewrite <- !split_tokens. now apply split_leading_whitespace.
Qed.

(** The words kept from two parts that white space separates are the
    words kept from the one, then those kept from the other. *)
Lemma filtered_words_app (w : world) (a ws b : str) :
  ws <> [] -> Forall (fun c => IsWhitespace db c = true) ws ->
  filtered_words db w (a ++ ws ++ b)
  = filtered_words db w a ++ filtered_words db w b.
Proof.
  intros Hne H. unfold filtered_words.
  rewrite lower_app_whitespace by assumption.
  rewrite !depunct_app, (depunct_whitespace ws H).
  rewrite split_app_whitespace by assumption.
  apply filter_app.
Qed.

Lemma filtered_words_nil (w : world) : filtered_words db w [] = [].
Proof. reflexivity. Qed.

Lemma filtered_words_outer (w : world) (lead a trail : str) :
  Forall (fun c => IsWhitespace db c = true) lead ->
  Forall (fun c => IsWhitespace db c = true) trail ->
  filtered_words db w (lead ++ a ++ trail) = filtered_words db w a.
Proof.
  intros L T.
  assert (R : filtered_words db w (a ++ trail) = filtered_words db w a).
  { destruct trail as [|c trail]; [now rewrite app_nil_r|].
    rewrite <- (app_nil_r (c :: trail)), filtered_words_app
      by (assumption || discriminate).
    now rewrite filtered_words_nil, app_nil_r. }
  destruct lead as [|c lead]; [exact R|].
  change ((c :: lead) ++ a ++ trail) with ([] ++ (c :: lead) ++ (a ++ trail)).
  rewrite filtered_words_app by (assumption || discriminate).
  now rewrite filtered_words_nil.
Qed.

End Breaks.

Lemma join_app (sep : str) (l1 l2 : list str) :
  l1 <> [] -> l2 <> [] ->
  join sep (l1 ++ l2) = join sep l1 ++ sep ++ join sep l2.
Proof.
  intros H1 H2. induction l1 as [|t l1 IH]; [now elim H1|].
  destruct l1 as [|t2 l1].
  - destruct l2; [now elim H2 | reflexivity].
  - change (join sep ((t :: t2 :: l1) ++ l2))
      with (t ++ sep ++ join sep ((t2 :: l1) ++ l2)).
    rewrite IH by discriminate.
    change (join sep (t :: t2 :: l1)) with (t ++ sep ++ join sep (t2 :: l1)).
    now rewrite <- !app_assoc.
Qed.

Lemma join_app_glue (db : UnicodeDB) (l1 l2 : list str) :
  Forall (token_ok db) l1 -> Forall (token_ok db) l2 ->
  join (py " ") (l1 ++ l2) = glue (join (py " ") l1) (join (py " ") l2).
Proof.
  intros T1 T2. destruct l1 as [|t1 l1]; [reflexivity|].
  destruct l2 as [|t2 l2].
  - rewrite app_nil_r. simpl join at 3. now destruct (join (py " ") (t1 :: l1)).
  - rewrite join_app by discriminate.
    destruct (join (py " ") (t1 :: l1)) eqn:E1.
    { apply (join_nil_iff db) in E1; [discriminate | assumption]. }
    destruct (join (py " ") (t2 :: l2)) eqn:E2.
    { apply (join_nil_iff db) in E2; [discriminate | assumption]. }
    reflexivity.
Qed.

Lemma excerpt_breaks_case : space_breaks_case excerpt_db.
Proof.
  intros c Hc. cbn [IsWhitespace excerpt_db] in Hc. tests_to_arith.
  split; apply not_true_is_false; intros H;
    cbn [IsCased IsCaseIgnorable excerpt_db] in H; tests_to_arith;
    unfold DOUBLE_STRUCK_CAPITAL_C in *; lia.
Qed.

(** X8. Cleaning works part by part: when white space separates two
    parts of a text, the result is the result for the first part, a space,
    and the result for the second (without the space when either result is
    empty). *)
Theorem clean_text_of_parts (db : UnicodeDB) (a ws b : str) (w : world) :
  db_ok db -> space_breaks_case db ->
  ws <> [] -> Forall (fun c => IsWhitespace db c = true) ws ->
  exists xa xb,
    fst (clean_text db (Some a) w) = Ok xa /\
    fst (clean_text db (Some b) w) = Ok xb /\
    fst (clean_text db (Some (a ++ ws ++ b)) w) = Ok (glue xa xb).
Proof.
  intros ok brk Hne H. do 2 eexists. rewrite !clean_text_join. cbn [fst].
  split; [reflexivity|]. split; [reflexivity|]. f_equal.
  rewrite (filtered_words_app db ok brk) by assumption.
  apply (join_app_glue db); apply filtered_words_tokens.
Qed.

Lemma clean_text_of_parts_witness :
  exists xa xb,
    fst (clean_text excerpt_db (Some (py "Help me!")) module_init) = Ok xa /\
    fst (clean_text excerpt_db (Some (py "Bleeding badly.")) module_init) = Ok xb /\
    fst (clean_text excerpt_db
           (Some (py "Help me!" ++ [9; 10] ++ py "Bleeding badly.")) module_init)
    = Ok (glue xa xb).
Proof.
  apply (clean_text_of_parts excerpt_db (py "Help me!") [9; 10]
           (py "Bleeding badly.") module_init excerpt_db_ok excerpt_breaks_case).
  - discriminate.
  - repeat constructor.
Defined.

(** X9. Only the presence of white space counts, not its kind, its
    length or its place at the ends: white space around a text is ignored,
    and one run of white space between two parts is as good as another. *)
Theorem whitespace_is_normalised (db : UnicodeDB)
    (lead a ws1 ws2 b trail : str) (w : world) :
  db_ok db -> space_breaks_case db ->
  ws1 <> [] -> ws2 <> [] ->
  Forall (fun c => IsWhitespace db c = true) (lead ++ ws1 ++ ws2 ++ trail) ->
  fst (clean_text db (Some (lead ++ (a ++ ws1 ++ b) ++ trail)) w)
  = fst (clean_text db (Some (a ++ ws2 ++ b)) w).
Proof.
  intros ok brk N1 N2 H.
  apply Forall_app in H. destruct H as [L H].
  apply Forall_app in H. destruct H as [W1 H].
  apply Forall_app in H. destruct H as [W2 T].
  rewrite !clean_text_join. cbn [fst]. do 2 f_equal.
  rewrite (filtered_words_outer db ok brk) by assumption.
  now rewrite !(filtered_words_app db ok brk) by assumption.
Qed.

Lemma whitespace_is_normalised_witness :
  fst (clean_text excerpt_db
         (Some ([10] ++ (py "chest" ++ [9; 32; 13] ++ py "pain") ++ py "  "))
         module_init)
  = fst (clean_text excerpt_db (Some (py "chest" ++ py " " ++ py "pain")) module_init).
Proof.
  apply (whitespace_is_normalised excerpt_db [10] (py "chest") [9; 32; 13]
           (py " ") (py "pain") (py "  ") module_init
           excerpt_db_ok excerpt_breaks_case).
  - discriminate.
  - discriminate.
  - repeat constructor.
Defined.

(** X10. The case of ASCII letters in the input does not count: two
    ASCII texts that differ only in the case of their letters are cleaned
    to the same result. *)
Theorem ascii_case_is_ignored (db : UnicodeDB) (a b : str) (w : world) :
  db_ok db -> is_ascii a -> is_ascii b ->
  map ascii_lower a = map ascii_lower b ->
  fst (clean_text db (Some a) w) = fst (clean_text db (Some b) w).
Proof.
  intros ok A B E. rewrite !clean_text_join. cbn [fst]. do 2 f_equal.
  unfold filtered_words, lower.
  now rewrite !(do_lower_ascii db ok) by assumption; rewrite E.
Qed.

Lemma ascii_case_is_ignored_witness :
  fst (clean_text excerpt_db (Some (py "HELP Me Now")) module_init)
  = fst (clean_text excerpt_db (Some (py "help mE nOW")) module_init).
Proof.
  apply (ascii_case_is_ignored excerpt_db (py "HELP Me Now") (py "help mE nOW")
           module_init excerpt_db_ok).
  - apply is_ascii_check. reflexivity.
  - apply is_ascii_check. reflexivity.
  - reflexivity.
Defined.

(** X11. Punctuation is deleted before the stop words are looked up: two
    runs of letters and digits that punctuation separates, and that
    together spell a stop word, are dropped as that stop word. *)
Theorem stop_word_through_punctuation (db : UnicodeDB) (u p v : str) (w : world) :
  db_ok db ->
  Forall (fun c => alnum c = true) u -> Forall (fun c => alnum c = true) v ->
  Forall (fun c => In c punctuation) p ->
  In (map ascii_lower (u ++ v)) (global_STOP_WORDS w) ->
  fst (clean_text db (Some (u ++ p ++ v)) w) = Ok [].
Proof.
  intros ok U V P S. rewrite clean_text_join. cbn [fst]. f_equal.
  unfold filtered_words.
  assert (A : forall x, Forall (fun c => alnum c = true) x -> is_ascii x).
  { intros x H. eapply Forall_impl; [|exact H]. intros c. apply alnum_ascii. }
  rewrite (depunct_lower_skip db u p v ok (A u U) (A v V) P).
  destruct (u ++ v) as [|c m] eqn:E; [reflexivity|].
  rewrite alnum_word_token;
    [| assumption | discriminate | rewrite <- E; apply Forall_app; now split].
  cbn [filter]. apply contains_In in S. now rewrite S.
Qed.

Lemma stop_word_through_punctuation_witness :
  fst (clean_text excerpt_db (Some (py "A" ++ py "." ++ py "M")) module_init) = Ok [].
Proof.
  apply (stop_word_through_punctuation excerpt_db (py "A") (py ".") (py "M")
           module_init excerpt_db_ok).
  - repeat constructor.
  - repeat constructor.
  - constructor; [apply has_char_In; reflexivity | constructor].
  - apply contains_In. reflexivity.
Defined.

(** ** The size of the result *)

Lemma length_join_fields (sep : codepoint -> bool) (s : str) :
  List.length (join (py " ") (Spec.fields sep s)) = List.length s.
Proof.
  induction s as [|c s IH]; [reflexivity|].
  cbn [Spec.fields]. destruct (fields_cons sep s) as (f & fs & E).
  rewrite E in *. destruct (sep c).
  - change (join (py " ") ([] :: f :: fs)) with (32 :: join (py " ") (f :: fs)).
    cbn [Datatypes.length]. now rewrite IH.
  - rewrite join_cons in *. cbn [Datatypes.length app]. now rewrite <- IH.
Qed.

Lemma length_join_filter (p : str -> bool) (l : list str) :
  (List.length (join (py " ") (filter p l)) <= List.length (join (py " ") l))%nat.
Proof.
  induction l as [|x l IH]; [apply le_n|].
  cbn [filter]. destruct (p x).
  - rewrite !join_cons, !length_app.
    destruct (filter p l) as [|y ys] eqn:E; [cbn [Datatypes.length]; lia|].
    destruct l as [|z zs]; [discriminate|].
    rewrite !length_app. lia.
  - rewrite join_cons, length_app.
    destruct l as [|z zs]; [cbn; lia|].
    rewrite length_app. lia.
Qed.

(** X12. The result is never longer than the lower-cased text; for an
    ASCII text it is never longer than the text itself. *)
Theorem result_is_no_longer (db : UnicodeDB) (text : str) (w : world) :
  exists out,
    clean_text db (Some text) w = (Ok out, w) /\
    (List.length out <= List.length (lower db text))%nat /\
    (db_ok db -> is_ascii text -> (List.length out <= List.length text)%nat).
Proof.
  eexists. split; [apply clean_text_join|].
  assert (B : (List.length (join (py " ") (filtered_words db w text))
               <= List.length (lower db text))%nat).
  { unfold filtered_words. rewrite split_tokens. unfold Spec.tokens.
    set (s := depunct (lower db text)).
    pose proof (length_join_filter
                  (fun t => negb (contains (global_STOP_WORDS w) t))
                  (filter Spec.nonempty (Spec.fields (IsWhitespace db) s))) as H1.
    pose proof (length_join_filter Spec.nonempty
                  (Spec.fields (IsWhitespace db) s)) as H2.
    rewrite length_join_fields in H2.
    pose proof (filter_length_le (fun c => negb (has_char punctuation c))
                  (lower db text)) as H3.
    fold (depunct (lower db text)) in H3. fold s in H3. lia. }
  split; [exact B|]. intros ok A.
  unfold lower in B. rewrite (do_lower_ascii db ok) in B by assumption.
  now rewrite length_map in B.
Qed.

Lemma result_is_no_longer_witness :
  exists out,
    clean_text excerpt_db (Some (py "Is   the  A/C   on?")) module_init
    = (Ok out, module_init) /\
    (List.length out <= List.length (py "Is   the  A/C   on?"))%nat.
Proof.
  destruct (result_is_no_longer excerpt_db (py "Is   the  A/C   on?") module_init)
    as (out & E & _ & B).
  exists out. split; [exact E|].
  apply B; [exact excerpt_db_ok | apply is_ascii_check; reflexivity].
Defined.

(** ** The pattern, for any set of characters *)

Lemma special_not_alnum (c : codepoint) :
  has_char special_chars c = true -> alnum c = false.
Proof.
  intros S.
  assert (A : c < 128).
  { apply has_char_In in S. vm_compute in S. intuition (subst; reflexivity). }
  assert (K : negb (has_char special_chars c && alnum c) = true).
  { apply (below_128 (fun c => negb (has_char special_chars c && alnum c)));
      [vm_compute; reflexivity | assumption]. }
  rewrite S in K. simpl in K. now apply negb_true_iff in K.
Qed.

Lemma atom_of_code (c : codepoint) : code_of (atom_of c) = Some c.
Proof.
  unfold atom_of. destruct (has_char special_chars c) eqn:S; [|reflexivity].
  simpl. now rewrite special_not_alnum.
Qed.

(** An escaped character is never read as one of the marks of a set. *)
Lemma atom_of_not_raw (c k : codepoint) :
  has_char special_chars k = true -> is_raw k (atom_of c) = false.
Proof.
  intros K. unfold atom_of. destruct (has_char special_chars c) eqn:S;
    [reflexivity|].
  simpl. apply N.eqb_neq. intros ->. congruence.
Qed.

Lemma atoms_escape (s rest : str) :
  atoms (re_escape s ++ rest) = option_map (app (map atom_of s)) (atoms rest).
Proof.
  induction s as [|c s IH]; [simpl; now destruct (atoms rest)|].
  change (re_escape (c :: s))
    with ((if has_char special_chars c then [backslash; c] else [c])
          ++ re_escape s).
  cbn [map]. unfold atom_of at 1.
  destruct (has_char special_chars c) eqn:S; cbn [app atoms].
  - change (backslash =? backslash) with true. cbv iota.
    rewrite IH. now destruct (atoms rest).
  - assert (B : (c =? backslash) = false).
    { apply N.eqb_neq. intros ->. vm_compute in S. discriminate. }
    rewrite B, IH. now destruct (atoms rest).
Qed.

Lemma parse_escaped (s : str) (first : bool) :
  (first = true -> s <> []) ->
  parse_items first (map atom_of s ++ [Raw 93]) = Some (map LITERAL s).
Proof.
  revert first. induction s as [|c s IH]; intros first H.
  - destruct first; [now elim H | reflexivity].
  - cbn [map app parse_items].
    rewrite (atom_of_not_raw c 93) by reflexivity.
    rewrite atom_of_code. cbn [andb].
    rewrite IH by discriminate. cbn [option_map].
    destruct s as [|c2 s]; [reflexivity|].
    cbn [map app]. rewrite (atom_of_not_raw c2 45) by reflexivity.
    destruct (map atom_of s ++ [Raw 93]) eqn:E; [|reflexivity].
    now destruct (map atom_of s).
Qed.

(** X13. Escaped by [re.escape] and put between brackets, any non-empty
    string compiles to the set of its own characters: none of them is read
    as a range, a negation, a class or the end of the set, so the
    substitution deletes these characters and no other.  The empty string
    gives a malformed pattern. *)
Theorem escaped_set_is_its_characters (s : str) :
  re_compile (py "[" ++ re_escape s ++ py "]")
  = match s with
    | [] => None
    | _ => Some {| negate := false; items := map LITERAL s |}
    end /\
  (forall c, set_matches {| negate := false; items := map LITERAL s |} c = has_char s c) /\
  (forall text, re_sub {| negate := false; items := map LITERAL s |} [] text
                = filter (fun c => negb (has_char s c)) text).
Proof.
  split; [|split; [apply literal_set_matches | apply re_sub_delete]].
  destruct s as [|c s]; [reflexivity|].
  unfold re_compile.
  change (py "[" ++ re_escape (c :: s) ++ py "]")
    with (91 :: (re_escape (c :: s) ++ [93])).
  cbn [atoms]. change (91 =? backslash) with false. cbv iota.
  rewrite atoms_escape. cbn [atoms option_map map app].
  change (93 =? backslash) with false. cbn [option_map is_raw app].
  rewrite N.eqb_refl.
  rewrite (atom_of_not_raw c 94) by reflexivity.
  change (atom_of c :: map atom_of s ++ [Raw 93])
    with (map atom_of (c :: s) ++ [Raw 93]).
  now rewrite parse_escaped by discriminate.
Qed.

(** ** The script, in any state *)

Lemma bind_ok {A B} (m : M A) (k : A -> M B) (w w' : world) (a : A) :
  m w = (Ok a, w') -> bind m k w = k a w'.
Proof. intros E. unfold bind. now rewrite E. Qed.

(** One turn of the loop of the script. *)
Lemma sample_turn (db : UnicodeDB) (sample : str) (w : world) :
  (print (py "Original: " ++ sample) ;;
   cleaned <- clean_text db (Some sample) ;;
   print (py "Cleaned : " ++ cleaned ++ [10])) w
  = (Ok tt,
     {| global_STOP_WORDS := global_STOP_WORDS w;
        stdout := stdout w
                  ++ lines [ py "Original: " ++ sample;
                             py "Cleaned : "
                             ++ join (py " ") (filtered_words db w sample);
                             [] ] |}).
Proof.
  unfold bind at 1. unfold print at 1.
  rewrite (bind_ok _ _ _ _ _ (clean_text_join db sample _)).
  unfold print. cbn [global_STOP_WORDS stdout]. f_equal. f_equal.
  unfold lines. cbn [flat_map]. unfold filtered_words. cbn [global_STOP_WORDS].
  now rewrite <- !app_assoc.
Qed.

(** The cleaned form of an ASCII sample under the stop words of the
    module, whatever the database. *)
Lemma sample_cleaned (db : UnicodeDB) (w : world) (sample : str) :
  db_ok db -> global_STOP_WORDS w = STOP_WORDS -> is_ascii sample ->
  join (py " ") (filtered_words db w sample)
  = join (py " ") (filtered_words excerpt_db module_init sample).
Proof.
  intros ok G A. rewrite <- !body_join.
  rewrite (body_ascii db excerpt_db w sample ok excerpt_db_ok A).
  unfold body, filtered_words. now rewrite G.
Qed.

(** X14. Run as a script, the module raises nothing, leaves [STOP_WORDS]
    as it is and only adds to what was printed before; with the stop words
    of the module it prints the two header lines and, for each of the three
    samples, the sample, its cleaned form and an empty line. *)
Theorem script_prints_samples (db : UnicodeDB) (w : world) :
  (exists printed,
     main db w = (Ok tt, {| global_STOP_WORDS := global_STOP_WORDS w;
                            stdout := stdout w ++ printed |})) /\
  (db_ok db -> global_STOP_WORDS w = STOP_WORDS ->
   main db w
   = (Ok tt,
      {| global_STOP_WORDS := STOP_WORDS;
         stdout := stdout w ++ lines
           [ py "Testing Preprocessing Logic:";
             py "------------------------------";
             py "Original: Help! I think i got my ribs fractured.";
             py "Cleaned : ribs fractured"; py "";
             py "Original: Please help, somebody is choking!";
             py "Cleaned : choking"; py "";
             py "Original: I have a minor cut on my finger.";
             py "Cleaned : have minor cut on finger"; py "" ] |})).
Proof.
  assert (R : main db w
    = (Ok tt,
       {| global_STOP_WORDS := global_STOP_WORDS w;
          stdout := stdout w ++ lines
            ([ py "Testing Preprocessing Logic:"; repeat 45 30 ]
             ++ flat_map (fun sample =>
                  [ py "Original: " ++ sample;
                    py "Cleaned : " ++ join (py " ") (filtered_words db w sample);
                    [] ]) sample_inputs) |})).
  { unfold main, sample_inputs. cbn [for_each].
    unfold bind at 1. unfold print at 1.
    unfold bind at 1. unfold print at 1. cbn [global_STOP_WORDS stdout].
    repeat (unfold bind at 1; rewrite sample_turn; cbn [global_STOP_WORDS stdout]).
    unfold ret. f_equal. f_equal.
    unfold lines, filtered_words. cbn [flat_map app global_STOP_WORDS].
    now rewrite <- !app_assoc. }
  split; [eexists; exact R|].
  intros ok G. rewrite R, G. do 2 f_equal. f_equal.
  cbn [flat_map sample_inputs app].
  rewrite !(sample_cleaned db w) by
    (assumption || (apply is_ascii_check; reflexivity)).
  vm_compute. reflexivity.
Qed.

Lemma script_prints_samples_witness :
  main excerpt_db {| global_STOP_WORDS := STOP_WORDS; stdout := py "$ " |}
  = (Ok tt,
     {| global_STOP_WORDS := STOP_WORDS;
        stdout := py "$ " ++ lines
          [ py "Testing Preprocessing Logic:";
            py "------------------------------";
            py "Original: Help! I think i got my ribs fractured.";
            py "Cleaned : ribs fractured"; py "";
            py "Original: Please help, somebody is choking!";
            py "Cleaned : choking"; py "";
            py "Original: I have a minor cut on my finger.";
            py "Cleaned : have minor cut on finger"; py "" ] |}).
Proof.
  apply (proj2 (script_prints_samples excerpt_db
                  {| global_STOP_WORDS := STOP_WORDS; stdout := py "$ " |}));
    [exact excerpt_db_ok | reflexivity].
Defined.
